(** * Air-cargo planning problem: a shallow embedding of
    [my_air_cargo_problems.py] and the properties of its transition engine,
    goal evaluator, grounder and heuristics.

    Python strings are [string], Python lists are [list], the integer
    returned by [len] is a [Z].  The helper modules the file imports
    ([aimacode.utils], [aimacode.logic], [aimacode.planning],
    [aimacode.search], [lp_utils]) are given by small models that are
    marked as such. *)

From stdpp Require Import base decidable list strings countable gmap.
From Stdlib Require Import Ascii ZArith Lia.

Local Open Scope string_scope.
Local Open Scope list_scope.

(** ** Expressions ([aimacode.utils.expr]) *)

Definition Term := string.

(** Modelled from the spec: the class [Expr] of [aimacode.utils] is missing.
    A literal is a predicate symbol applied to a tuple of terms; the knowledge
    base also holds negated literals, whose operator is [~]. *)
Inductive Expr : Type :=
| Atom (pred : string) (terms : list Term)
| Not (e : Expr).

#[global] Instance Expr_eq_dec : EqDecision Expr.
Proof. solve_decision. Defined.

(** Expressions can be counted, so that they can be put in finite sets. *)
Fixpoint Expr_code (e : Expr) : nat * (string * list Term) :=
  match e with
  | Atom pred terms => (0, (pred, terms))
  | Not e => let '(n, a) := Expr_code e in (S n, a)
  end.

Definition Expr_decode (c : nat * (string * list Term)) : Expr :=
  Nat.iter c.1 Not (Atom c.2.1 c.2.2).

Lemma Expr_decode_code e : Expr_decode (Expr_code e) = e.
Proof.
  induction e as [pred terms | e IH]; [reflexivity |].
  simpl. destruct (Expr_code e) as [n a]. unfold Expr_decode in *. simpl in *.
  by rewrite IH.
Qed.

#[global] Instance Expr_countable : Countable Expr :=
  inj_countable' Expr_code Expr_decode Expr_decode_code.

(** [e.op] *)
Definition op (e : Expr) : string :=
  match e with
  | Atom pred _ => pred
  | Not _ => "~"
  end.

(** [e.op == '~'] *)
Definition is_negation (e : Expr) : bool := bool_decide (op e = "~").

(** A positive literal: its operator is a predicate symbol. *)
Definition positive (e : Expr) : Prop := is_negation e = false.

#[global] Instance positive_dec e : Decision (positive e).
Proof. unfold positive. apply _. Defined.

(** [expr("At({}, {})".format(x, y))] and [expr("In({}, {})".format(c, p))] *)
Definition At (x y : Term) : Expr := Atom "At" [x; y].
Definition In_ (c p : Term) : Expr := Atom "In" [c; p].

(** ** Fluent states and the state codec ([lp_utils]) *)

Record FluentState : Type := mkFluentState {
  pos : list Expr;
  neg : list Expr
}.

(** Modelled from the spec: [FluentState.sentence] of [lp_utils] is missing.
    The conjunction of the true literals and of the negations of the false
    ones, given as the list of its conjuncts. *)
Definition sentence (fs : FluentState) : list Expr :=
  pos fs ++ (Not <$> neg fs).

(** Modelled from the spec: [FluentState.pos_sentence] of [lp_utils] is
    missing.  The conjunction of the true literals only. *)
Definition pos_sentence (fs : FluentState) : list Expr :=
  pos fs.

(** Modelled from the spec: [encode_state] of [lp_utils] is missing.  For each
    atom of the universe the character is [T] iff the atom is among the true
    literals; the false literals are not consulted. *)
Fixpoint encode_state (fs : FluentState) (fluent_map : list Expr) : string :=
  match fluent_map with
  | [] => ""
  | fluent :: rest =>
      String (if bool_decide (fluent ∈ pos fs) then "T" else "F")%char
             (encode_state fs rest)
  end.

(** Modelled from the spec: [decode_state] of [lp_utils] is missing.  The
    universe is partitioned by the corresponding character of the state.  A
    state is as long as its universe; on other strings this model decodes the
    common prefix. *)
Fixpoint decode_state (state : string) (fluent_map : list Expr) : FluentState :=
  match state, fluent_map with
  | String char state', fluent :: rest =>
      let fs := decode_state state' rest in
      if bool_decide (char = "T"%char)
      then mkFluentState (fluent :: pos fs) (neg fs)
      else mkFluentState (pos fs) (fluent :: neg fs)
  | _, _ => mkFluentState [] []
  end.

(** A state of a universe: one [T] or [F] per atom. *)
Fixpoint is_TF (state : string) : Prop :=
  match state with
  | EmptyString => True
  | String char state' => (char = "T"%char ∨ char = "F"%char) ∧ is_TF state'
  end.

Definition state_of (state : string) (fluent_map : list Expr) : Prop :=
  String.length state = length fluent_map ∧ is_TF state.

(** ** The knowledge base ([aimacode.logic.PropKB]) *)

(** Modelled from the spec: the class [PropKB] of [aimacode.logic] is missing.
    It is the scratch workspace holding a set of literals: [tell] adds the
    conjuncts of a sentence, [retract] removes them. *)
Module PropKB.
Record t : Type := mk { clauses : list Expr }.

Definition new : t := mk [].

Definition tell (kb : t) (sentence : list Expr) : t :=
  mk (clauses kb ++ sentence).

Definition retract (kb : t) (sentence : list Expr) : t :=
  mk (filter (λ c, c ∉ sentence) (clauses kb)).
End PropKB.

(** ** Actions ([aimacode.planning.Action]) *)

Record Action : Type := mkAction {
  name : string;
  args : list Term;
  precond_pos : list Expr;
  precond_neg : list Expr;
  effect_add : list Expr;
  effect_rem : list Expr
}.

#[global] Instance Action_eq_dec : EqDecision Action.
Proof. solve_decision. Defined.

(** Modelled from the spec: [Action.check_precond] of [aimacode.planning] is
    missing.  True iff every positive precondition is in the knowledge base and
    no negative one is.  The actions are ground, [args] substitutes nothing. *)
Definition check_precond (a : Action) (kb : PropKB.t) (args : list Term) : bool :=
  forallb (λ clause, bool_decide (clause ∈ PropKB.clauses kb)) (precond_pos a)
  && forallb (λ clause, bool_decide (clause ∉ PropKB.clauses kb)) (precond_neg a).

(** Modelled from the spec: [Action.__call__] of [aimacode.planning] is
    missing.  The literals of [effect_rem] are retracted, then those of
    [effect_add] are told; the preconditions are not consulted. *)
Definition act (a : Action) (kb : PropKB.t) (args : list Term) : PropKB.t :=
  let kb := fold_left (λ kb clause, PropKB.retract kb [clause]) (effect_rem a) kb in
  fold_left (λ kb clause, PropKB.tell kb [clause]) (effect_add a) kb.

(** ** Search nodes ([aimacode.search.Node]) *)

(** Modelled from the spec: the class [Node] of [aimacode.search] is missing.
    A node exposes its state, and nodes are compared by their states. *)
Record Node : Type := mkNode { state : string }.

(** ** The problem ([AirCargoProblem]) *)

(** The arguments of [__init__].  The other attributes are computed from them
    once and never assigned again; they are the functions below. *)
Record AirCargoProblem : Type := mkAirCargoProblem {
  cargos : list Term;
  planes : list Term;
  airports : list Term;
  initial : FluentState;
  goal : list Expr
}.

(** [self.state_map = initial.pos + initial.neg] *)
Definition state_map (self : AirCargoProblem) : list Expr :=
  pos (initial self) ++ neg (initial self).

(** [self.initial_state_TF = encode_state(initial, self.state_map)] *)
Definition initial_state_TF (self : AirCargoProblem) : string :=
  encode_state (initial self) (state_map self).

(** *** The grounder ([get_actions]) *)

(** The body of the innermost loop of [load_actions]. *)
Definition load (c p a : Term) : Action :=
  let precond_pos := [At c a; At p a] in
  let precond_neg := [] in
  let effect_add := [In_ c p] in
  let effect_rem := [At c a] in
  mkAction "Load" [c; p; a] precond_pos precond_neg effect_add effect_rem.

(** The body of the innermost loop of [unload_actions]. *)
Definition unload (c p a : Term) : Action :=
  let precond_pos := [In_ c p; At p a] in
  let precond_neg := [] in
  let effect_add := [At c a] in
  let effect_rem := [In_ c p] in
  mkAction "Unload" [c; p; a] precond_pos precond_neg effect_add effect_rem.

(** The body of the innermost loop of [fly_actions]. *)
Definition fly (p fr to : Term) : Action :=
  let precond_pos := [At p fr] in
  let precond_neg := [] in
  let effect_add := [At p to] in
  let effect_rem := [At p fr] in
  mkAction "Fly" [p; fr; to] precond_pos precond_neg effect_add effect_rem.

(** [for x in xs: body], threading the list under construction. *)
Definition for_each {A B : Type} (xs : list A) (body : A → list B → list B)
    (acc : list B) : list B :=
  fold_left (λ acc x, body x acc) xs acc.

(** [acc.append(x)] *)
Definition append {B : Type} (x : B) (acc : list B) : list B := acc ++ [x].

Definition load_actions (self : AirCargoProblem) : list Action :=
  let loads := [] in
  for_each (cargos self) (λ c,
    for_each (planes self) (λ p,
      for_each (airports self) (λ a,
        append (load c p a)))) loads.

Definition unload_actions (self : AirCargoProblem) : list Action :=
  let unloads := [] in
  for_each (cargos self) (λ c,
    for_each (planes self) (λ p,
      for_each (airports self) (λ a,
        append (unload c p a)))) unloads.

Definition fly_actions (self : AirCargoProblem) : list Action :=
  let flys := [] in
  for_each (airports self) (λ fr,
    for_each (airports self) (λ to,
      if bool_decide (fr ≠ to)
      then for_each (planes self) (λ p, append (fly p fr to))
      else id)) flys.

Definition get_actions (self : AirCargoProblem) : list Action :=
  load_actions self ++ unload_actions self ++ fly_actions self.

(** [self.actions_list = self.get_actions()] *)
Definition actions_list (self : AirCargoProblem) : list Action :=
  get_actions self.

(** *** The transition engine *)

Definition actions (self : AirCargoProblem) (state : string) : list Action :=
  let kb := PropKB.new in
  let kb := PropKB.tell kb (sentence (decode_state state (state_map self))) in
  filter (λ a, check_precond a kb (args a) = true) (actions_list self).

(** The loop of [result] over [kb.clauses]: the clauses whose operator is [~]
    go to [neg], the others to [pos]. *)
Definition split_clauses (clauses : list Expr) : list Expr * list Expr :=
  fold_left (λ '(pos, neg) e,
               if is_negation e then (pos, neg ++ [e]) else (pos ++ [e], neg))
            clauses ([], []).

Definition result (self : AirCargoProblem) (state : string) (action : Action) : string :=
  let kb := PropKB.new in
  let kb := PropKB.tell kb (sentence (decode_state state (state_map self))) in
  let kb := act action kb (args action) in
  let '(pos, neg) := split_clauses (PropKB.clauses kb) in
  encode_state (mkFluentState pos neg) (state_map self).

(** *** The goal evaluator *)

(** The loop of [goal_test], which returns [False] at the first goal clause
    that is not in the knowledge base. *)
Fixpoint goal_loop (goal : list Expr) (kb : PropKB.t) : bool :=
  match goal with
  | [] => true
  | clause :: goal' =>
      if bool_decide (clause ∉ PropKB.clauses kb) then false
      else goal_loop goal' kb
  end.

Definition goal_test (self : AirCargoProblem) (state : string) : bool :=
  let kb := PropKB.new in
  let kb := PropKB.tell kb (pos_sentence (decode_state state (state_map self))) in
  goal_loop (goal self) kb.

(** *** The heuristics *)

Definition h_1 (self : AirCargoProblem) (node : Node) : Z :=
  let h_const := 1%Z in
  h_const.

Definition h_ignore_preconditions (self : AirCargoProblem) (node : Node) : Z :=
  let kb := PropKB.new in
  let kb := PropKB.tell kb (sentence (decode_state (state node) (state_map self))) in
  Z.of_nat (length (filter (λ g, g ∉ PropKB.clauses kb) (goal self))).

(** ** The first example problem *)

Definition air_cargo_p1 : AirCargoProblem :=
  let cargos := ["C1"; "C2"] in
  let planes := ["P1"; "P2"] in
  let airports := ["JFK"; "SFO"] in
  let pos := [At "C1" "SFO"; At "C2" "JFK"; At "P1" "SFO"; At "P2" "JFK"] in
  let neg := [At "C2" "SFO"; In_ "C2" "P1"; In_ "C2" "P2";
              At "C1" "JFK"; In_ "C1" "P1"; In_ "C1" "P2";
              At "P1" "JFK"; At "P2" "SFO"] in
  let init := mkFluentState pos neg in
  let goal := [At "C1" "JFK"; At "C2" "SFO"] in
  mkAirCargoProblem cargos planes airports init goal.

(** The plan of the first problem: C1 goes to JFK with P1, C2 to SFO with
    P2. *)
Definition air_cargo_p1_plan : list Action :=
  [load "C1" "P1" "SFO"; fly "P1" "SFO" "JFK"; unload "C1" "P1" "JFK";
   load "C2" "P2" "JFK"; fly "P2" "JFK" "SFO"; unload "C2" "P2" "SFO"].

(** The state after a sequence of actions, by [result]. *)
Definition result_all (self : AirCargoProblem) (state : string)
    (plan : list Action) : string :=
  fold_left (result self) plan state.

(** Every step of the plan is one of the actions of the state it is taken
    in. *)
Fixpoint valid_plan (self : AirCargoProblem) (state : string)
    (plan : list Action) : Prop :=
  match plan with
  | [] => True
  | a :: plan' =>
      a ∈ actions self state ∧ valid_plan self (result self state a) plan'
  end.

(** ** What the specification says, in its own words *)

(** The literals true in a state. *)
Definition true_literals (state : string) (universe : list Expr) : list Expr :=
  pos (decode_state state universe).

(** [applicable] of the specification: every positive precondition is true in
    the state and every negative one is false. *)
Definition applicable (state : string) (a : Action) (universe : list Expr) : Prop :=
  Forall (λ l, l ∈ true_literals state universe) (precond_pos a)
  ∧ Forall (λ l, l ∉ true_literals state universe) (precond_neg a).

#[global] Instance applicable_dec state a universe :
  Decision (applicable state a universe).
Proof. unfold applicable. apply _. Defined.

(** The true set after an action: [effect_rem] is removed from the true set,
    then [effect_add] is added to it. *)
Definition true_set_after (state : string) (a : Action) (universe : list Expr)
    : gset Expr :=
  (list_to_set (true_literals state universe) ∖ list_to_set (effect_rem a))
  ∪ list_to_set (effect_add a).

(** [encode] of the specification, on a set of true literals. *)
Definition encode_set (true_set : gset Expr) (universe : list Expr) : string :=
  encode_state (mkFluentState (elements true_set)
                              (filter (λ l, l ∉ true_set) universe)) universe.

(** [result] of the specification: decode, update the true set, encode. *)
Definition result_spec (state : string) (a : Action) (universe : list Expr) : string :=
  encode_set (true_set_after state a universe) universe.

(** The states of a universe are the encodings of its fluent states. *)
Definition codec_state (universe : list Expr) (state : string) : Prop :=
  ∃ fs, state = encode_state fs universe.

(** Pairs of distinct airports, the first component varying slowest. *)
Definition airport_pairs (self : AirCargoProblem) : list (Term * Term) :=
  filter (λ ft, ft.1 ≠ ft.2) (list_prod (airports self) (airports self)).

(** ** Memoization ([functools.lru_cache]) *)

(** The decorator [lru_cache(maxsize)] of the Python library, for a function
    of one hashable key. *)
Module lru_cache.
Section lru_cache.
Context {K V : Type} `{EqDecision K}.
Variable maxsize : nat.
Variable user_function : K → V.

(** The cache: keys with their results, the most recently used first. *)
Definition cache : Type := list (K * V).

Fixpoint find (key : K) (c : cache) : option V :=
  match c with
  | [] => None
  | (key', v) :: c' => if decide (key' = key) then Some v else find key c'
  end.

(** A call of the decorated function: a hit returns the stored result and
    makes the key the most recent one; a miss calls the function, stores the
    result as the most recent one and drops the least recent one when the
    cache is full. *)
Definition call (c : cache) (key : K) : V * cache :=
  match find key c with
  | Some v => (v, (key, v) :: filter (λ kv, kv.1 ≠ key) c)
  | None =>
      let v := user_function key in
      (v, take maxsize ((key, v) :: c))
  end.

(** The cache after a sequence of calls, from the empty cache of a fresh
    decorated function. *)
Definition after (history : list K) : cache :=
  fold_left (λ c key, (call c key).2) history [].

(** The keys of a history by recency: most recent first, each once. *)
Definition recency (history : list K) : list K :=
  fold_left (λ r key, key :: filter (λ key', key' ≠ key) r) history [].

(** Every stored result is the result of the function on its key. *)
Definition coherent (c : cache) : Prop :=
  ∀ key v, (key, v) ∈ c → v = user_function key.
End lru_cache.
End lru_cache.

(** ** The memoized heuristics *)

#[global] Instance Node_eq_dec : EqDecision Node.
Proof. solve_decision. Defined.

(** The identity [id(self)] of a problem object. *)
Definition ident : Type := nat.

(** The key of a call [h(self, node)]: the problem by identity, the node by
    its state. *)
Definition cache_key : Type := ident * Node.

(** [maxsize=8192] *)
Definition maxsize : nat := 8 * 1024.

Section heuristics.
(** The problem objects alive, by identity; they are not assigned to after
    construction. *)
Variable problem_at : ident → AirCargoProblem.
(** [PlanningGraph(self, state).h_levelsum()] of [my_planning_graph], which is
    not part of this file. *)
Variable PlanningGraph_h_levelsum : AirCargoProblem → string → Z.

Definition h_pg_levelsum (self : AirCargoProblem) (node : Node) : Z :=
  let pg_levelsum := PlanningGraph_h_levelsum self (state node) in
  pg_levelsum.

(** [@lru_cache(maxsize=8192) def h_pg_levelsum(self, node)] *)
Definition h_pg_levelsum_cached (c : lru_cache.cache) (self : ident) (node : Node)
    : Z * lru_cache.cache :=
  lru_cache.call maxsize (λ key : cache_key, h_pg_levelsum (problem_at key.1) key.2)
                 c (self, node).

(** [@lru_cache(maxsize=8192) def h_ignore_preconditions(self, node)] *)
Definition h_ignore_preconditions_cached (c : lru_cache.cache) (self : ident)
    (node : Node) : Z * lru_cache.cache :=
  lru_cache.call maxsize
                 (λ key : cache_key, h_ignore_preconditions (problem_at key.1) key.2)
                 c (self, node).
End heuristics.

(** The cache of the memoized [h_ignore_preconditions] after a sequence of
    calls [h_ignore_preconditions(self, node)], from the empty cache the
    decorator starts with. *)
Definition h_ignore_preconditions_cache (problem_at : ident → AirCargoProblem)
    (history : list cache_key) : lru_cache.cache :=
  fold_left (λ c key, (h_ignore_preconditions_cached problem_at c key.1 key.2).2)
            history [].

(** The cache of the memoized [h_pg_levelsum] after a sequence of calls. *)
Definition h_pg_levelsum_cache (problem_at : ident → AirCargoProblem)
    (PlanningGraph_h_levelsum : AirCargoProblem → string → Z)
    (history : list cache_key) : lru_cache.cache :=
  fold_left (λ c key, (h_pg_levelsum_cached problem_at PlanningGraph_h_levelsum
                         c key.1 key.2).2)
            history [].

(** ** The other example problems *)

Definition air_cargo_p2 : AirCargoProblem :=
  let cargos := ["C1"; "C2"; "C3"] in
  let planes := ["P1"; "P2"; "P3"] in
  let airports := ["JFK"; "SFO"; "ATL"] in
  let pos := [At "C1" "SFO"; At "C2" "JFK"; At "C3" "ATL";
              At "P1" "SFO"; At "P2" "JFK"; At "P3" "ATL"] in
  let neg := [At "C1" "JFK"; At "C1" "ATL";
              In_ "C1" "P1"; In_ "C1" "P2"; In_ "C1" "P3";
              At "C2" "SFO"; At "C2" "ATL";
              In_ "C2" "P1"; In_ "C2" "P2"; In_ "C2" "P3";
              At "C3" "SFO"; At "C3" "JFK";
              In_ "C3" "P1"; In_ "C3" "P2"; In_ "C3" "P3";
              At "P1" "JFK"; At "P1" "ATL";
              At "P2" "SFO"; At "P2" "ATL";
              At "P3" "SFO"; At "P3" "JFK"] in
  let init := mkFluentState pos neg in
  let goal := [At "C1" "JFK"; At "C2" "SFO"; At "C3" "SFO"] in
  mkAirCargoProblem cargos planes airports init goal.

Definition air_cargo_p3 : AirCargoProblem :=
  let cargos := ["C1"; "C2"; "C3"; "C4"] in
  let planes := ["P1"; "P2"] in
  let airports := ["JFK"; "SFO"; "ATL"; "ORD"] in
  let pos := [At "C1" "SFO"; At "C2" "JFK"; At "C3" "ATL"; At "C4" "ORD";
              At "P1" "SFO"; At "P2" "JFK"] in
  let neg := [At "C1" "JFK"; At "C1" "ATL"; At "C1" "ORD";
              In_ "C1" "P1"; In_ "C1" "P2";
              At "C2" "SFO"; At "C2" "ATL"; At "C2" "ORD";
              In_ "C2" "P1"; In_ "C2" "P2";
              At "C3" "SFO"; At "C3" "JFK"; At "C3" "ORD";
              In_ "C3" "P1"; In_ "C3" "P2";
              At "C4" "SFO"; At "C4" "JFK"; At "C4" "ATL";
              In_ "C4" "P1"; In_ "C4" "P2";
              At "P1" "JFK"; At "P1" "ATL"; At "P1" "ORD";
              At "P2" "SFO"; At "P2" "ATL"; At "P2" "ORD"] in
  let init := mkFluentState pos neg in
  let goal := [At "C1" "JFK"; At "C3" "JFK"; At "C2" "SFO"; At "C4" "SFO"] in
  mkAirCargoProblem cargos planes airports init goal.

(** ** Notions used to state the properties of the engine *)

(** [n] times the character [ch]. *)
Fixpoint repeat_char (ch : ascii) (n : nat) : string :=
  match n with
  | 0 => ""
  | S n' => String ch (repeat_char ch n')
  end.

(** The object a literal locates: the cargo or plane [o] of [At(o, a)] and
    of [In(o, p)]. *)
Definition located (l : Expr) : option Term :=
  match l with
  | Atom pred [o; _] =>
      if decide (pred = "At" ∨ pred = "In") then Some o else None
  | _ => None
  end.

(** No object is in two places: two true literals that locate the same
    object are the same literal. *)
Definition single_location (true_lits : list Expr) : Prop :=
  Forall (λ l1, Forall (λ l2,
    is_Some (located l1) → located l1 = located l2 → l1 = l2) true_lits)
    true_lits.

(** A plan made of ground actions of the problem. *)
Definition ground_plan (self : AirCargoProblem) (plan : list Action) : Prop :=
  Forall (λ a, a ∈ get_actions self) plan.

(** The goal literals that are not true in a state. *)
Definition unmet (self : AirCargoProblem) (state : string) : list Expr :=
  filter (λ g, g ∉ true_literals state (state_map self)) (goal self).

(** The universe of a problem is fit for its ground actions when it lists
    positive literals, none twice, no literal both as true and as false, holds
    the goal and holds every literal the ground actions test or change. *)
Definition well_formed (self : AirCargoProblem) : Prop :=
  Forall positive (state_map self)
  ∧ NoDup (state_map self)
  ∧ Forall (λ g, g ∈ state_map self) (goal self)
  ∧ Forall (λ x, Forall (λ l, l ∈ state_map self)
                        (precond_pos x ++ effect_add x ++ effect_rem x))
           (get_actions self).

(** * Properties *)

(** ** The codec *)

Section codec.
Implicit Types (fs : FluentState) (universe : list Expr) (state : string).

Lemma encode_state_ext fs1 fs2 universe :
  (∀ l, l ∈ universe → l ∈ pos fs1 ↔ l ∈ pos fs2) →
  encode_state fs1 universe = encode_state fs2 universe.
Proof.
  induction universe as [| l universe IH]; intros Hext; [reflexivity |].
  simpl. rewrite IH by (intros; apply Hext; by right).
  f_equal. apply (f_equal (λ b : bool, if b then "T"%char else "F"%char)).
  apply bool_decide_ext, Hext. by left.
Qed.

Lemma encode_state_length fs universe :
  String.length (encode_state fs universe) = length universe.
Proof. induction universe; simpl; congruence. Qed.

Lemma encode_state_TF fs universe : is_TF (encode_state fs universe).
Proof.
  induction universe as [| l universe IH]; simpl; [done |].
  split; [| done]. case_bool_decide; auto.
Qed.

Lemma true_literals_universe state universe l :
  l ∈ true_literals state universe → l ∈ universe.
Proof.
  unfold true_literals. revert state.
  induction universe as [| u universe IH]; intros [| c state]; simpl;
    try by inversion 1.
  case_bool_decide as Hc; simpl; rewrite ?elem_of_cons; intros Hl.
  - destruct Hl as [-> | Hl]; [by left | right; eauto].
  - right; eauto.
Qed.

(** Decoding an encoding: on the universe, the true literals are those of
    the fluent state that was encoded. *)
Lemma true_literals_encode fs universe l :
  l ∈ true_literals (encode_state fs universe) universe ↔
  l ∈ universe ∧ l ∈ pos fs.
Proof.
  unfold true_literals.
  induction universe as [| u universe IH]; simpl.
  - split; [by inversion 1 | intros [H _]; by inversion H].
  - case_bool_decide as Hu; case_bool_decide as Hc; simpl;
      rewrite ?elem_of_cons, IH; try done; intuition congruence.
Qed.

Lemma encode_decode_encode fs universe :
  encode_state (decode_state (encode_state fs universe) universe) universe
  = encode_state fs universe.
Proof.
  apply encode_state_ext. intros l Hl.
  change (pos (decode_state ?s ?u)) with (true_literals s u).
  rewrite true_literals_encode. tauto.
Qed.

Lemma codec_state_state_of universe state :
  codec_state universe state → state_of state universe.
Proof.
  intros [fs ->]. split; [apply encode_state_length | apply encode_state_TF].
Qed.

(** Over a duplicate-free universe every [T]/[F] string of the right length
    is the encoding of what it decodes to. *)
Lemma encode_decode state universe :
  NoDup universe → state_of state universe →
  encode_state (decode_state state universe) universe = state.
Proof.
  intros Hnd. revert state.
  induction Hnd as [| u universe Hu Hnd IH]; intros [| c state] [Hlen HTF];
    simpl in *; try done.
  destruct HTF as [Hc HTF].
  assert (Hrec : encode_state (decode_state state universe) universe = state)
    by (apply IH; split; [lia | done]).
  assert (Hin : ∀ l, l ∈ pos (decode_state state universe) → l ∈ universe)
    by (intros l; apply true_literals_universe).
  destruct Hc as [-> | ->].
  - rewrite (bool_decide_true ("T"%char = "T"%char)) by done. simpl.
    rewrite bool_decide_true by (by left). f_equal.
    etrans; [| exact Hrec]. apply encode_state_ext. intros l Hl; simpl.
    rewrite elem_of_cons. split; [| by right]. by intros [-> | Hl'].
  - rewrite (bool_decide_false ("F"%char = "T"%char)) by done. simpl.
    rewrite bool_decide_false by (intros Hu'; by apply Hu, Hin). f_equal.
    etrans; [| exact Hrec]. by apply encode_state_ext.
Qed.

Lemma state_of_codec_state universe state :
  NoDup universe → state_of state universe → codec_state universe state.
Proof.
  intros Hnd Hs. exists (decode_state state universe).
  by rewrite encode_decode.
Qed.
End codec.

(** ** The knowledge base under an action *)

Section knowledge_base.
Implicit Types (kb : PropKB.t) (e : Expr) (a : Action).

Lemma retract_all_clauses kb (rem : list Expr) e :
  e ∈ PropKB.clauses (fold_left (λ kb clause, PropKB.retract kb [clause]) rem kb)
  ↔ e ∈ PropKB.clauses kb ∧ e ∉ rem.
Proof.
  revert kb. induction rem as [| r rem IH]; intros kb; simpl.
  - split; [intros H; split; [done | by inversion 1] | by intros [H _]].
  - rewrite IH. simpl. rewrite list_elem_of_filter, list_elem_of_singleton,
      not_elem_of_cons. tauto.
Qed.

Lemma tell_all_clauses kb (add : list Expr) :
  PropKB.clauses (fold_left (λ kb clause, PropKB.tell kb [clause]) add kb)
  = PropKB.clauses kb ++ add.
Proof.
  revert kb. induction add as [| x add IH]; intros kb; simpl.
  - by rewrite app_nil_r.
  - rewrite IH. simpl. by rewrite <- app_assoc.
Qed.

Lemma act_clauses a kb args e :
  e ∈ PropKB.clauses (act a kb args)
  ↔ (e ∈ PropKB.clauses kb ∧ e ∉ effect_rem a) ∨ e ∈ effect_add a.
Proof.
  unfold act. by rewrite tell_all_clauses, elem_of_app, retract_all_clauses.
Qed.

Lemma split_clauses_from (clauses pos0 neg0 : list Expr) :
  fold_left (λ '(pos, neg) e,
               if is_negation e then (pos, neg ++ [e]) else (pos ++ [e], neg))
            clauses (pos0, neg0)
  = (pos0 ++ filter positive clauses,
     neg0 ++ filter (λ e, ¬ positive e) clauses).
Proof.
  revert pos0 neg0.
  induction clauses as [| e clauses IH]; intros pos0 neg0; simpl.
  - by rewrite !app_nil_r.
  - unfold positive at 1 2. destruct (is_negation e) eqn:He; rewrite IH.
    + rewrite filter_cons_False by (unfold positive; congruence).
      rewrite filter_cons_True by (unfold positive; congruence).
      by rewrite <- app_assoc.
    + rewrite filter_cons_True by done.
      rewrite filter_cons_False by (unfold positive; tauto).
      by rewrite <- app_assoc.
Qed.

Lemma split_clauses_filter (clauses : list Expr) :
  split_clauses clauses
  = (filter positive clauses, filter (λ e, ¬ positive e) clauses).
Proof. unfold split_clauses. by rewrite split_clauses_from. Qed.

(** A positive literal is in the knowledge base of a state iff it is true
    in it. *)
Lemma sentence_positive (fs : FluentState) e :
  positive e → e ∈ sentence fs ↔ e ∈ pos fs.
Proof.
  intros He. unfold sentence. rewrite elem_of_app, list_elem_of_fmap.
  split; [| by left]. intros [H | (x & -> & _)]; [done | discriminate He].
Qed.
End knowledge_base.

(** ** The transition engine *)

Section transition.
Variable self : AirCargoProblem.
Implicit Types (state : string) (a : Action).

Lemma elem_of_true_set_after state a universe l :
  l ∈ true_set_after state a universe
  ↔ (l ∈ true_literals state universe ∧ l ∉ effect_rem a) ∨ l ∈ effect_add a.
Proof.
  unfold true_set_after.
  rewrite elem_of_union, elem_of_difference, !elem_of_list_to_set. tauto.
Qed.

(** [result] updates the true set by the effects of the action, whatever
    its preconditions. *)
Lemma result_effects state a :
  Forall positive (state_map self) →
  result self state a = result_spec state a (state_map self).
Proof.
  intros Hpos. unfold result, result_spec, encode_set.
  rewrite split_clauses_filter. apply encode_state_ext. intros l Hl; simpl.
  assert (Hl' : positive l) by (rewrite Forall_forall in Hpos; auto).
  rewrite list_elem_of_filter, act_clauses, elem_of_elements,
    elem_of_true_set_after. simpl.
  rewrite sentence_positive by done. unfold true_literals. tauto.
Qed.

Lemma check_precond_applicable state a :
  Forall positive (precond_pos a) → Forall positive (precond_neg a) →
  check_precond a
    (PropKB.tell PropKB.new (sentence (decode_state state (state_map self))))
    (args a) = true
  ↔ applicable state a (state_map self).
Proof.
  intros Hp Hn. unfold check_precond, applicable, true_literals. simpl.
  rewrite andb_true_iff, !forallb_forall, !Forall_forall.
  rewrite Forall_forall in Hp, Hn.
  split; intros [H1 H2]; split; intros l Hl.
  - assert (Hk := H1 l (proj1 (list_elem_of_In _ _) Hl)).
    apply bool_decide_eq_true in Hk. apply sentence_positive in Hk; auto.
  - assert (Hk := H2 l (proj1 (list_elem_of_In _ _) Hl)).
    apply bool_decide_eq_true in Hk.
    intros Hl2. apply Hk, sentence_positive; auto.
  - apply list_elem_of_In in Hl.
    apply bool_decide_eq_true, sentence_positive; auto.
  - apply list_elem_of_In in Hl. apply bool_decide_eq_true.
    intros Hl2. apply sentence_positive in Hl2; auto. by apply (H2 l).
Qed.
End transition.

(** ** Loops that build a list *)

Section loops.
Context {A B : Type}.
Implicit Types (xs : list A) (acc : list B).

(** A loop whose body extends the list by [f x] builds [flat_map f]. *)
Lemma for_each_flat_map xs (body : A → list B → list B) (f : A → list B) acc :
  (∀ x acc', body x acc' = acc' ++ f x) →
  for_each xs body acc = acc ++ flat_map f xs.
Proof.
  intros Hbody. unfold for_each. revert acc.
  induction xs as [| x xs IH]; intros acc; simpl.
  - by rewrite app_nil_r.
  - by rewrite IH, Hbody, <- app_assoc.
Qed.

Lemma for_each_append xs (g : A → B) acc :
  for_each xs (λ x, append (g x)) acc = acc ++ map g xs.
Proof.
  rewrite (for_each_flat_map _ _ (λ x, [g x])) by done.
  f_equal.
Qed.

Lemma length_flat_map_const xs (f : A → list B) n :
  (∀ x, x ∈ xs → length (f x) = n) →
  length (flat_map f xs) = length xs * n.
Proof.
  induction xs as [| x xs IH]; intros Hn; simpl; [done |].
  rewrite length_app, Hn, IH; [done | | by left].
  intros y Hy. apply Hn. by right.
Qed.

(** Blocks of equal length are found by division. *)
Lemma lookup_flat_map_const xs (f : A → list B) n i k x :
  (∀ y, length (f y) = n) →
  xs !! i = Some x → k < n →
  flat_map f xs !! (i * n + k) = f x !! k.
Proof.
  intros Hn. revert i.
  induction xs as [| y xs IH]; intros i Hi Hk; [done |].
  destruct i as [| i]; simpl in *.
  - injection Hi as ->. rewrite lookup_app_l by (rewrite Hn; lia). done.
  - rewrite lookup_app_r by (rewrite Hn; lia).
    rewrite Hn. replace (n + i * n + k - n) with (i * n + k) by lia. auto.
Qed.
End loops.

(** ** The grounder *)

Section grounder.
Variable self : AirCargoProblem.

Lemma load_actions_order :
  load_actions self
  = flat_map (λ c, flat_map (λ p, map (λ a, load c p a) (airports self))
                            (planes self)) (cargos self).
Proof.
  unfold load_actions. rewrite (for_each_flat_map _ _
    (λ c, flat_map (λ p, map (λ a, load c p a) (airports self)) (planes self)));
    [done |].
  intros c acc. rewrite (for_each_flat_map _ _
    (λ p, map (λ a, load c p a) (airports self))); [done |].
  intros p acc'. apply for_each_append.
Qed.

Lemma unload_actions_order :
  unload_actions self
  = flat_map (λ c, flat_map (λ p, map (λ a, unload c p a) (airports self))
                            (planes self)) (cargos self).
Proof.
  unfold unload_actions. rewrite (for_each_flat_map _ _
    (λ c, flat_map (λ p, map (λ a, unload c p a) (airports self)) (planes self)));
    [done |].
  intros c acc. rewrite (for_each_flat_map _ _
    (λ p, map (λ a, unload c p a) (airports self))); [done |].
  intros p acc'. apply for_each_append.
Qed.

Lemma fly_actions_nested :
  fly_actions self
  = flat_map (λ fr, flat_map (λ to,
        if bool_decide (fr ≠ to)
        then map (λ p, fly p fr to) (planes self) else [])
      (airports self)) (airports self).
Proof.
  unfold fly_actions. rewrite (for_each_flat_map _ _
    (λ fr, flat_map (λ to, if bool_decide (fr ≠ to)
                           then map (λ p, fly p fr to) (planes self) else [])
                    (airports self))); [done |].
  intros fr acc. rewrite (for_each_flat_map _ _
    (λ to, if bool_decide (fr ≠ to)
           then map (λ p, fly p fr to) (planes self) else [])); [done |].
  intros to acc'. case_bool_decide.
  - apply for_each_append.
  - by rewrite app_nil_r.
Qed.

Lemma flat_map_pairs {B : Type} (g : Term * Term → list B) (l1 l2 : list Term) :
  flat_map g (filter (λ ft, ft.1 ≠ ft.2) (list_prod l1 l2))
  = flat_map (λ fr, flat_map (λ to,
        if bool_decide (fr ≠ to) then g (fr, to) else []) l2) l1.
Proof.
  induction l1 as [| fr l1 IH]; simpl; [done |].
  rewrite filter_app, flat_map_app, IH. f_equal.
  clear IH. induction l2 as [| to l2 IH]; simpl; [done |].
  case_bool_decide as Hne.
  - rewrite filter_cons_True by exact Hne. simpl. by rewrite IH.
  - rewrite filter_cons_False by (simpl; tauto). by rewrite IH.
Qed.

Lemma fly_actions_order :
  fly_actions self
  = flat_map (λ ft, map (λ p, fly p ft.1 ft.2) (planes self))
             (airport_pairs self).
Proof.
  unfold airport_pairs.
  by rewrite fly_actions_nested, (flat_map_pairs
    (λ ft, map (λ p, fly p ft.1 ft.2) (planes self))).
Qed.
End grounder.


(** ** The cache *)

Section lru_cache_facts.
Context {K V : Type} `{EqDecision K}.
Variable maxsize : nat.
Variable user_function : K → V.
Implicit Types (c : list (K * V)) (key : K) (r history : list K).

Local Abbreviation call := (lru_cache.call maxsize user_function).
Local Abbreviation after := (lru_cache.after maxsize user_function).
Local Abbreviation coherent := (lru_cache.coherent user_function).

Lemma lru_find_Some key v c : lru_cache.find key c = Some v → (key, v) ∈ c.
Proof.
  induction c as [| [key' v'] c IH]; simpl; [done |].
  case_decide as Hk; [intros [= ->]; subst; by left | right; auto].
Qed.

Lemma lru_find_None key c : lru_cache.find key c = None ↔ key ∉ c.*1.
Proof.
  induction c as [| [key' v'] c IH]; simpl.
  - split; [intros _; by inversion 1 | done].
  - rewrite not_elem_of_cons. case_decide as Hk; [| rewrite IH].
    + split; [done | intros [Hne _]; by destruct Hne].
    + split; [intros Hc; split; [congruence | done] | by intros [_ Hc]].
Qed.

Lemma lru_call_coherent c key : coherent c → coherent (call c key).2.
Proof.
  intros Hc key' v'. unfold lru_cache.call.
  destruct (lru_cache.find key c) as [v |] eqn:Hf; simpl.
  - rewrite elem_of_cons, list_elem_of_filter.
    intros [[= -> ->] | [_ Hin]]; [by apply Hc, lru_find_Some | by apply Hc].
  - intros Hin. apply (subseteq_take maxsize) in Hin.
    apply elem_of_cons in Hin as [[= -> ->] | Hin]; [done | by apply Hc].
Qed.

Lemma lru_call_bounded c key :
  (length c ≤ maxsize)%nat → (length (call c key).2 ≤ maxsize)%nat.
Proof.
  intros Hlen. unfold lru_cache.call.
  destruct (lru_cache.find key c) as [v |] eqn:Hf; simpl.
  - apply lru_find_Some in Hf.
    match goal with
    | |- (S (length ?l) ≤ _)%nat => assert (Hlt : (length l < length c)%nat)
    end.
    { apply (length_filter_lt _ _ (key, v)); [done | simpl; tauto]. }
    lia.
  - rewrite length_take. lia.
Qed.

(** A coherent cache answers as the function does. *)
Lemma lru_call_value c key : coherent c → (call c key).1 = user_function key.
Proof.
  intros Hc. unfold lru_cache.call.
  destruct (lru_cache.find key c) as [v |] eqn:Hf; simpl; [| done].
  by apply Hc, lru_find_Some.
Qed.

Lemma lru_run_invariant history c :
  coherent c → (length c ≤ maxsize)%nat →
  coherent (fold_left (λ c key, (call c key).2) history c)
  ∧ (length (fold_left (λ c key, (call c key).2) history c) ≤ maxsize)%nat.
Proof.
  revert c. induction history as [| key history IH]; intros c Hc Hlen; simpl.
  - done.
  - apply IH; [by apply lru_call_coherent | by apply lru_call_bounded].
Qed.

Lemma lru_after_invariant history :
  coherent (after history) ∧ (length (after history) ≤ maxsize)%nat.
Proof.
  apply lru_run_invariant; [| simpl; lia]. intros key v Hin. by inversion Hin.
Qed.

(** Whatever was called before, the decorated function returns what the
    function itself returns. *)
Lemma lru_call_after history key :
  (call (after history) key).1 = user_function key.
Proof. apply lru_call_value, lru_after_invariant. Qed.

(** *** The eviction order *)

Lemma filter_take_present key n r :
  NoDup r → key ∈ take (S n) r →
  filter (λ key', key' ≠ key) (take (S n) r)
  = take n (filter (λ key', key' ≠ key) r).
Proof.
  intros Hnd. revert n. induction Hnd as [| x r Hx Hnd IH]; intros n; simpl.
  - by inversion 1.
  - intros Hin. destruct (decide (x = key)) as [-> | Hne].
    + rewrite !filter_cons_False by tauto.
      assert (Hid : filter (λ key', key' ≠ key) r = r).
      { clear -Hx. induction r as [| y r IHr]; [done |].
        apply not_elem_of_cons in Hx as [Hy Hx].
        rewrite filter_cons_True by done. by rewrite IHr. }
      rewrite Hid. f_equal. clear -Hx. revert n.
      induction r as [| y r IHr]; intros [| n]; simpl; try done.
      apply not_elem_of_cons in Hx as [Hy Hx].
      rewrite filter_cons_True by done. by rewrite IHr.
    + rewrite !filter_cons_True by done.
      apply elem_of_cons in Hin as [-> | Hin]; [done |].
      destruct n as [| n]; [by inversion Hin |].
      simpl. f_equal. by apply IH.
Qed.

Lemma take_filter_absent key n r :
  key ∉ take n r →
  take n (filter (λ key', key' ≠ key) r) = take n r.
Proof.
  revert n. induction r as [| x r IH]; intros [| n]; simpl; try done.
  intros [Hne Hin]%not_elem_of_cons.
  rewrite filter_cons_True by done. simpl. by rewrite IH.
Qed.

Lemma keys_filter key c :
  (filter (λ kv : K * V, kv.1 ≠ key) c).*1 = filter (λ key', key' ≠ key) c.*1.
Proof.
  induction c as [| [k v] c IH]; [done |]. rewrite fmap_cons. simpl.
  destruct (decide (k = key)) as [-> | Hne].
  - rewrite (filter_cons_False _ (key, v)) by (intros Hc; by apply Hc).
    by rewrite (filter_cons_False _ key) by (intros Hc; by apply Hc).
  - rewrite (filter_cons_True _ (k, v)) by done.
    rewrite (filter_cons_True _ k) by done. rewrite fmap_cons. by rewrite IH.
Qed.

Lemma lru_call_keys c key r :
  NoDup r → c.*1 = take maxsize r →
  (call c key).2.*1
  = take maxsize (key :: filter (λ key', key' ≠ key) r).
Proof.
  intros Hnd Hkeys. unfold lru_cache.call.
  destruct (lru_cache.find key c) as [v |] eqn:Hf; simpl.
  - assert (Hin : key ∈ take maxsize r).
    { rewrite <- Hkeys. apply lru_find_Some in Hf.
      apply list_elem_of_fmap. by exists (key, v). }
    destruct maxsize as [| n]; [by inversion Hin |]. simpl. f_equal.
    rewrite <- filter_take_present, <- Hkeys by done.
    apply keys_filter.
  - apply lru_find_None in Hf. rewrite Hkeys in Hf.
    destruct maxsize as [| n]; [done |]. simpl. f_equal.
    assert (Hn : key ∉ take n r).
    { intros Hin. apply Hf. apply elem_of_take in Hin as (i & Hi & Hlt).
      apply elem_of_take. exists i. split; [done | lia]. }
    rewrite take_filter_absent by done.
    rewrite fmap_take, Hkeys, take_take. f_equal. lia.
Qed.

(** The cache holds the [maxsize] most recently used keys, the most recent
    first: the key dropped by a miss on a full cache is the least recently
    used one. *)
Lemma lru_after_keys history :
  (after history).*1 = take maxsize (lru_cache.recency history).
Proof.
  unfold lru_cache.after, lru_cache.recency.
  assert (Hgen : ∀ c r, NoDup r → c.*1 = take maxsize r →
    (fold_left (λ c key, (call c key).2) history c).*1
    = take maxsize
        (fold_left (λ r key, key :: filter (λ key', key' ≠ key) r) history r)).
  { induction history as [| key history IH]; intros c r Hnd Hkeys; simpl.
    - done.
    - apply IH.
      + apply NoDup_cons. split; [| by apply NoDup_filter].
        rewrite list_elem_of_filter. intros [Hne _]. by apply Hne.
      + by apply lru_call_keys. }
  apply Hgen; [constructor | by rewrite take_nil].
Qed.
End lru_cache_facts.

(** ** The ground actions *)

Section ground_actions.
Variable self : AirCargoProblem.
Implicit Types (x : Action).

Lemma elem_of_load_actions x :
  x ∈ load_actions self ↔
  ∃ c p a, c ∈ cargos self ∧ p ∈ planes self ∧ a ∈ airports self
           ∧ x = load c p a.
Proof.
  rewrite load_actions_order, list_elem_of_In, in_flat_map. split.
  - intros (c & Hc & Hx). apply in_flat_map in Hx as (p & Hp & Hx).
    apply in_map_iff in Hx as (a & <- & Ha).
    exists c, p, a. by rewrite !list_elem_of_In.
  - intros (c & p & a & Hc & Hp & Ha & ->). rewrite list_elem_of_In in Hc, Hp, Ha.
    exists c. split; [done |]. apply in_flat_map. exists p. split; [done |].
    apply in_map_iff. by exists a.
Qed.

Lemma elem_of_unload_actions x :
  x ∈ unload_actions self ↔
  ∃ c p a, c ∈ cargos self ∧ p ∈ planes self ∧ a ∈ airports self
           ∧ x = unload c p a.
Proof.
  rewrite unload_actions_order, list_elem_of_In, in_flat_map. split.
  - intros (c & Hc & Hx). apply in_flat_map in Hx as (p & Hp & Hx).
    apply in_map_iff in Hx as (a & <- & Ha).
    exists c, p, a. by rewrite !list_elem_of_In.
  - intros (c & p & a & Hc & Hp & Ha & ->). rewrite list_elem_of_In in Hc, Hp, Ha.
    exists c. split; [done |]. apply in_flat_map. exists p. split; [done |].
    apply in_map_iff. by exists a.
Qed.

Lemma elem_of_fly_actions x :
  x ∈ fly_actions self ↔
  ∃ p fr to, p ∈ planes self ∧ fr ∈ airports self ∧ to ∈ airports self
             ∧ fr ≠ to ∧ x = fly p fr to.
Proof.
  rewrite fly_actions_nested, list_elem_of_In, in_flat_map. split.
  - intros (fr & Hfr & Hx). apply in_flat_map in Hx as (to & Hto & Hx).
    case_bool_decide as Hne; [| by destruct Hx].
    apply in_map_iff in Hx as (p & <- & Hp).
    exists p, fr, to. by rewrite !list_elem_of_In.
  - intros (p & fr & to & Hp & Hfr & Hto & Hne & ->).
    rewrite list_elem_of_In in Hp, Hfr, Hto.
    exists fr. split; [done |]. apply in_flat_map. exists to. split; [done |].
    rewrite bool_decide_true by done. apply in_map_iff. by exists p.
Qed.

Lemma elem_of_get_actions x :
  x ∈ get_actions self ↔
  x ∈ load_actions self ∨ x ∈ unload_actions self ∨ x ∈ fly_actions self.
Proof. unfold get_actions. by rewrite !elem_of_app. Qed.

(** The preconditions of the ground actions are positive literals. *)
Lemma get_actions_positive x :
  x ∈ get_actions self →
  Forall positive (precond_pos x) ∧ Forall positive (precond_neg x).
Proof.
  rewrite elem_of_get_actions, elem_of_load_actions, elem_of_unload_actions,
    elem_of_fly_actions.
  intros [(c & p & a & _ & _ & _ & ->) | [(c & p & a & _ & _ & _ & ->)
          | (p & fr & to & _ & _ & _ & _ & ->)]]; simpl;
    split; repeat constructor.
Qed.
End ground_actions.

Lemma filter_ext_elem {A : Type} (P Q : A → Prop)
    `{∀ x, Decision (P x)} `{∀ x, Decision (Q x)} (l : list A) :
  (∀ x, x ∈ l → P x ↔ Q x) → filter P l = filter Q l.
Proof.
  induction l as [| x l IH]; intros Hext; [done |].
  rewrite !filter_cons. rewrite IH by (intros; apply Hext; by right).
  destruct (decide (P x)) as [HP | HP], (decide (Q x)) as [HQ | HQ]; try done.
  - destruct HQ. apply Hext; [by left | done].
  - destruct HP. apply Hext; [by left | done].
Qed.

Lemma goal_loop_true (goal : list Expr) (kb : PropKB.t) :
  goal_loop goal kb = true ↔ Forall (λ g, g ∈ PropKB.clauses kb) goal.
Proof.
  induction goal as [| g goal IH]; simpl.
  - split; [constructor | done].
  - rewrite Forall_cons. case_bool_decide as Hg.
    + split; [done | by intros [Hin _]].
    + rewrite IH. tauto.
Qed.

(** * The claims *)

(** A decidable closed proposition is proved by evaluating its decision. *)
Ltac decide_by_computation :=
  apply (bool_decide_unpack _); vm_compute; exact I.

(** ** The transition engine *)

(** C1.  For every state and every action applicable in it, [result] returns
    the state obtained by decoding the state against the atom universe,
    removing the literals of [effect_rem] from the true set, adding those of
    [effect_add] to it (as sets: adding a true literal or removing a false one
    changes nothing), and encoding the set against the same universe.  The
    universe holds positive literals. *)
Theorem result_decode_update_encode (self : AirCargoProblem) (state : string)
    (action : Action) :
  Forall positive (state_map self) →
  applicable state action (state_map self) →
  result self state action = result_spec state action (state_map self).
Proof. intros Hpos _. by apply result_effects. Qed.

Lemma result_decode_update_encode_witness :
  result air_cargo_p1 "TTTTFFFFFFFF" (load "C1" "P1" "SFO")
  = result_spec "TTTTFFFFFFFF" (load "C1" "P1" "SFO") (state_map air_cargo_p1).
Proof.
  apply result_decode_update_encode.
  - decide_by_computation.
  - decide_by_computation.
Defined.

(** C7.  When [result] is called with an action that is not applicable in the
    state, the effects are applied all the same: the state returned is the one
    obtained by removing [effect_rem] and adding [effect_add]. *)
Theorem result_inapplicable_applies_effects (self : AirCargoProblem)
    (state : string) (action : Action) :
  Forall positive (state_map self) →
  ¬ applicable state action (state_map self) →
  result self state action = result_spec state action (state_map self).
Proof. intros Hpos _. by apply result_effects. Qed.

Lemma result_inapplicable_applies_effects_witness :
  result air_cargo_p1 "TTTTFFFFFFFF" (load "C2" "P1" "JFK")
  = result_spec "TTTTFFFFFFFF" (load "C2" "P1" "JFK") (state_map air_cargo_p1).
Proof.
  apply result_inapplicable_applies_effects.
  - decide_by_computation.
  - decide_by_computation.
Defined.

(** In the first problem, loading C2 into P1 at JFK is not possible initially
    (P1 is at SFO), and [result] moves C2 into P1 nonetheless. *)
Example result_inapplicable_p1 :
  (load "C2" "P1" "JFK" ∉ actions air_cargo_p1 "TTTTFFFFFFFF")
  ∧ result air_cargo_p1 "TTTTFFFFFFFF" (load "C2" "P1" "JFK") = "TFTTFTFFFFFF".
Proof. split; [decide_by_computation | vm_compute; reflexivity]. Qed.

(** C8.  An action whose [effect_add] literals are all true in the state and
    whose [effect_rem] literals are all false in it leaves the state as it is.
    The state is a state of the universe (the encoding of a fluent state) and
    the universe holds positive literals. *)
Theorem result_irrelevant_effects (self : AirCargoProblem) (state : string)
    (action : Action) :
  Forall positive (state_map self) →
  codec_state (state_map self) state →
  Forall (λ l, l ∈ true_literals state (state_map self)) (effect_add action) →
  Forall (λ l, l ∉ true_literals state (state_map self)) (effect_rem action) →
  result self state action = state.
Proof.
  intros Hpos [fs ->] Hadd Hrem. rewrite result_effects by done.
  rewrite Forall_forall in Hadd, Hrem.
  unfold result_spec, encode_set. apply encode_state_ext. intros l Hl. simpl.
  rewrite elem_of_elements, elem_of_true_set_after, true_literals_encode.
  split.
  - intros [[[_ Hfs] _] | Hin]; [done |].
    by apply Hadd, true_literals_encode in Hin as [_ Hfs].
  - intros Hfs. left. split; [done |].
    intros Hin. apply (Hrem l Hin). by apply true_literals_encode.
Qed.

Lemma result_irrelevant_effects_witness :
  result air_cargo_p1 "TTTTFFFFFFFF" (fly "P1" "JFK" "SFO") = "TTTTFFFFFFFF".
Proof.
  apply result_irrelevant_effects.
  - decide_by_computation.
  - exists (initial air_cargo_p1). vm_compute. reflexivity.
  - decide_by_computation.
  - decide_by_computation.
Defined.

(** C2.  [actions] returns exactly the applicable ground actions, in the
    order of the grounder: the applicable load actions, then the applicable
    unload actions, then the applicable fly actions. *)
Theorem actions_applicable_in_order (self : AirCargoProblem) (state : string) :
  actions self state
  = filter (λ a, applicable state a (state_map self)) (load_actions self)
    ++ filter (λ a, applicable state a (state_map self)) (unload_actions self)
    ++ filter (λ a, applicable state a (state_map self)) (fly_actions self)
  ∧ ∀ a, a ∈ actions self state
         ↔ a ∈ actions_list self ∧ applicable state a (state_map self).
Proof.
  assert (Hfilter : actions self state
    = filter (λ a, applicable state a (state_map self)) (get_actions self)).
  { unfold actions, actions_list. apply filter_ext_elem. intros a Ha.
    apply get_actions_positive in Ha as [Hp Hn].
    by apply check_precond_applicable. }
  split.
  - rewrite Hfilter. unfold get_actions. by rewrite !filter_app.
  - intros a. rewrite Hfilter, list_elem_of_filter. unfold actions_list. tauto.
Qed.

(** ** The goal evaluator *)

(** C4.  [goal_test] is true iff every goal literal is among the true
    literals decoded from the state; a goal literal that is not in the atom
    universe is satisfied by no state. *)
Theorem goal_test_iff_goal_true (self : AirCargoProblem) (state : string) :
  (goal_test self state = true
   ↔ Forall (λ g, g ∈ true_literals state (state_map self)) (goal self))
  ∧ ∀ g, g ∈ goal self → g ∉ state_map self → goal_test self state = false.
Proof.
  assert (Hiff : goal_test self state = true
    ↔ Forall (λ g, g ∈ true_literals state (state_map self)) (goal self)).
  { unfold goal_test. by rewrite goal_loop_true. }
  split; [done |]. intros g Hg Hout.
  apply not_true_is_false. rewrite Hiff, Forall_forall. intros Hall.
  by apply Hout, (true_literals_universe state), Hall.
Qed.

Lemma goal_test_iff_goal_true_witness :
  goal_test (mkAirCargoProblem ["C1"] ["P1"] ["JFK"; "SFO"]
               (mkFluentState [At "C1" "SFO"; At "P1" "SFO"] [At "C1" "JFK"])
               [At "C1" "ORD"]) "TTF" = false.
Proof.
  eapply (proj2 (goal_test_iff_goal_true _ _) (At "C1" "ORD")).
  - decide_by_computation.
  - decide_by_computation.
Defined.

(** ** The heuristics *)

(** C5.  [h_ignore_preconditions] is a non-negative integer, the number of
    goal literals that are not among the true literals decoded from the state
    of the node.  The goal holds positive literals. *)
Theorem h_ignore_preconditions_counts (self : AirCargoProblem) (node : Node) :
  Forall positive (goal self) →
  h_ignore_preconditions self node
  = Z.of_nat (length (filter
      (λ g, g ∉ true_literals (state node) (state_map self)) (goal self)))
  ∧ (0 ≤ h_ignore_preconditions self node)%Z.
Proof.
  intros Hpos. split; [| unfold h_ignore_preconditions; lia].
  unfold h_ignore_preconditions. do 2 f_equal.
  apply filter_ext_elem. intros g Hg. simpl.
  rewrite Forall_forall in Hpos. by rewrite sentence_positive by auto.
Qed.

Lemma h_ignore_preconditions_counts_witness :
  h_ignore_preconditions air_cargo_p1 (mkNode "TTTTFFFFFFFF") = 2%Z
  ∧ (0 ≤ h_ignore_preconditions air_cargo_p1 (mkNode "TTTTFFFFFFFF"))%Z.
Proof.
  assert (Hpos : Forall positive (goal air_cargo_p1))
    by decide_by_computation.
  destruct (h_ignore_preconditions_counts air_cargo_p1 (mkNode "TTTTFFFFFFFF") Hpos)
    as [Hcount Hnonneg].
  split; [| exact Hnonneg]. rewrite Hcount. vm_compute. reflexivity.
Defined.

(** ** The first problem *)

(** C6.  In the first problem (C1 and P1 at SFO, C2 and P2 at JFK; the goal
    is C1 at JFK and C2 at SFO) the plan Load(C1,P1,SFO), Fly(P1,SFO,JFK),
    Unload(C1,P1,JFK), Load(C2,P2,JFK), Fly(P2,JFK,SFO), Unload(C2,P2,SFO),
    applied by [result], ends in a state where [goal_test] is true;
    [goal_test] is false in the initial state; [h_ignore_preconditions] is 2
    in the initial state and 0 in the final one. *)
Theorem air_cargo_p1_scenario :
  goal_test air_cargo_p1
    (result_all air_cargo_p1 (initial_state_TF air_cargo_p1) air_cargo_p1_plan)
  = true
  ∧ goal_test air_cargo_p1 (initial_state_TF air_cargo_p1) = false
  ∧ h_ignore_preconditions air_cargo_p1
      (mkNode (initial_state_TF air_cargo_p1)) = 2%Z
  ∧ h_ignore_preconditions air_cargo_p1
      (mkNode (result_all air_cargo_p1 (initial_state_TF air_cargo_p1)
                          air_cargo_p1_plan)) = 0%Z.
Proof. repeat split; vm_compute; reflexivity. Qed.

Example air_cargo_p1_initial :
  initial_state_TF air_cargo_p1 = "TTTTFFFFFFFF"
  ∧ true_literals (initial_state_TF air_cargo_p1) (state_map air_cargo_p1)
    = [At "C1" "SFO"; At "C2" "JFK"; At "P1" "SFO"; At "P2" "JFK"].
Proof. split; vm_compute; reflexivity. Qed.

Example air_cargo_p1_plan_valid :
  valid_plan air_cargo_p1 (initial_state_TF air_cargo_p1) air_cargo_p1_plan.
Proof. simpl. repeat split; decide_by_computation. Qed.

Example air_cargo_p1_final :
  result_all air_cargo_p1 (initial_state_TF air_cargo_p1) air_cargo_p1_plan
  = "FFFFTFFTFFTT".
Proof. vm_compute. reflexivity. Qed.

(** ** The grounder *)

Section counting.
Context {B : Type}.
Variable g : Term → Term → list B.
Variable n : nat.
Hypothesis g_length : ∀ fr to, length (g fr to) = n.

Lemma length_row_absent (fr : Term) (l : list Term) :
  fr ∉ l →
  length (flat_map (λ to, if bool_decide (fr ≠ to) then g fr to else []) l)
  = length l * n.
Proof.
  induction l as [| to l IH]; simpl; [done |].
  intros [Hne Hl]%not_elem_of_cons.
  rewrite length_app, IH by done. rewrite bool_decide_true by done.
  by rewrite g_length.
Qed.

(** In a row of the airports, the airport itself is skipped once. *)
Lemma length_row_present (fr : Term) (l : list Term) :
  NoDup l → fr ∈ l →
  length (flat_map (λ to, if bool_decide (fr ≠ to) then g fr to else []) l)
  = (length l - 1) * n.
Proof.
  induction 1 as [| to l Hto Hnd IH]; [by inversion 1 |]. simpl.
  rewrite length_app. destruct (decide (fr = to)) as [<- | Hne].
  - intros _. rewrite bool_decide_false by (intros Hc; by apply Hc).
    rewrite length_row_absent by done. simpl. lia.
  - intros [? | Hin]%elem_of_cons; [done |].
    rewrite bool_decide_true, g_length, IH by done.
    assert (0 < length l) by (destruct l; [by inversion Hin | simpl; lia]).
    destruct (length l); simpl; lia.
Qed.
End counting.

Lemma lookup_map {A B : Type} (f : A → B) (l : list A) (k : nat) :
  map f l !! k = f <$> l !! k.
Proof.
  revert k. induction l as [| x l IH]; intros [| k]; simpl; done.
Qed.

(** The position of an action built in three nested loops. *)
Lemma lookup_three_loops (f : Term → Term → Term → Action)
    (xs ys zs : list Term) (i j k : nat) (x y z : Term) :
  xs !! i = Some x → ys !! j = Some y → zs !! k = Some z →
  flat_map (λ x, flat_map (λ y, map (λ z, f x y z) zs) ys) xs
    !! ((i * length ys + j) * length zs + k)
  = Some (f x y z).
Proof.
  intros Hi Hj Hk.
  assert (Hj' := lookup_lt_Some _ _ _ Hj). assert (Hk' := lookup_lt_Some _ _ _ Hk).
  replace ((i * length ys + j) * length zs + k)
    with (i * (length ys * length zs) + (j * length zs + k)) by lia.
  rewrite (lookup_flat_map_const _ _ (length ys * length zs) _ _ x); [| | done |].
  - rewrite (lookup_flat_map_const _ _ (length zs) _ _ y); [| | done | done].
    + by rewrite lookup_map, Hk.
    + intros y'. apply length_map.
  - intros x'. apply length_flat_map_const. intros y' _. apply length_map.
  - nia.
Qed.

Lemma filter_all {A : Type} (P : A → Prop) `{∀ x, Decision (P x)} (l : list A) :
  Forall P l → filter P l = l.
Proof.
  induction 1 as [| x l Hx Hl IH]; [done |].
  by rewrite filter_cons_True, IH by done.
Qed.

Lemma filter_none {A : Type} (P : A → Prop) `{∀ x, Decision (P x)} (l : list A) :
  Forall (λ x, ¬ P x) l → filter P l = [].
Proof.
  induction 1 as [| x l Hx Hl IH]; [done |].
  by rewrite filter_cons_False, IH by done.
Qed.

(** The actions of [get_actions] of a given name are those of the loop that
    builds the actions of this name. *)
Lemma get_actions_by_name (self : AirCargoProblem) :
  filter (λ x, name x = "Load") (get_actions self) = load_actions self
  ∧ filter (λ x, name x = "Unload") (get_actions self) = unload_actions self
  ∧ filter (λ x, name x = "Fly") (get_actions self) = fly_actions self.
Proof.
  assert (Hl : Forall (λ x, name x = "Load") (load_actions self)).
  { apply Forall_forall. by intros x (? & ? & ? & _ & _ & _ & ->)%elem_of_load_actions. }
  assert (Hu : Forall (λ x, name x = "Unload") (unload_actions self)).
  { apply Forall_forall. by intros x (? & ? & ? & _ & _ & _ & ->)%elem_of_unload_actions. }
  assert (Hf : Forall (λ x, name x = "Fly") (fly_actions self)).
  { apply Forall_forall. by intros x (? & ? & ? & _ & _ & _ & _ & ->)%elem_of_fly_actions. }
  unfold get_actions. rewrite !filter_app. split; [| split].
  - rewrite (filter_all _ (load_actions self)) by done.
    rewrite (filter_none _ (unload_actions self)), (filter_none _ (fly_actions self)).
    + by rewrite !app_nil_r.
    + eapply Forall_impl; [exact Hf |]. simpl. by intros x ->.
    + eapply Forall_impl; [exact Hu |]. simpl. by intros x ->.
  - rewrite (filter_all _ (unload_actions self)) by done.
    rewrite (filter_none _ (load_actions self)), (filter_none _ (fly_actions self)).
    + by rewrite app_nil_r.
    + eapply Forall_impl; [exact Hf |]. simpl. by intros x ->.
    + eapply Forall_impl; [exact Hl |]. simpl. by intros x ->.
  - rewrite (filter_all _ (fly_actions self)) by done.
    rewrite (filter_none _ (load_actions self)), (filter_none _ (unload_actions self)).
    + done.
    + eapply Forall_impl; [exact Hu |]. simpl. by intros x ->.
    + eapply Forall_impl; [exact Hl |]. simpl. by intros x ->.
Qed.

(** C3.  For [c] cargos, [p] planes and [a] distinct airports the list
    returned by [get_actions] holds exactly [c*p*a] actions named Load,
    [c*p*a] actions named Unload and [p*a*(a-1)] actions named Fly, and
    nothing else; its elements are exactly the actions Load(c,p,a),
    Unload(c,p,a) and Fly(p,from,to) with [from ≠ to], with the preconditions
    and effects of their schemas. *)
Theorem grounding_count (self : AirCargoProblem) :
  NoDup (airports self) →
  length (filter (λ x, name x = "Load") (get_actions self))
  = length (cargos self) * length (planes self) * length (airports self)
  ∧ length (filter (λ x, name x = "Unload") (get_actions self))
    = length (cargos self) * length (planes self) * length (airports self)
  ∧ length (filter (λ x, name x = "Fly") (get_actions self))
    = length (planes self) * length (airports self)
      * (length (airports self) - 1)
  ∧ length (get_actions self)
    = 2 * (length (cargos self) * length (planes self) * length (airports self))
      + length (planes self) * length (airports self)
        * (length (airports self) - 1)
  ∧ (∀ x, x ∈ get_actions self ↔
       (∃ c p a, c ∈ cargos self ∧ p ∈ planes self ∧ a ∈ airports self
          ∧ x = mkAction "Load" [c; p; a] [At c a; At p a] [] [In_ c p] [At c a])
       ∨ (∃ c p a, c ∈ cargos self ∧ p ∈ planes self ∧ a ∈ airports self
            ∧ x = mkAction "Unload" [c; p; a] [In_ c p; At p a] []
                           [At c a] [In_ c p])
       ∨ (∃ p fr to, p ∈ planes self ∧ fr ∈ airports self ∧ to ∈ airports self
            ∧ fr ≠ to
            ∧ x = mkAction "Fly" [p; fr; to] [At p fr] [] [At p to] [At p fr])).
Proof.
  intros Hnd.
  destruct (get_actions_by_name self) as (Hload & Hunload & Hfly).
  assert (Hl : length (load_actions self)
    = length (cargos self) * length (planes self) * length (airports self)).
  { rewrite load_actions_order.
    rewrite (length_flat_map_const _ _ (length (planes self) * length (airports self)));
      [lia |].
    intros c _. apply length_flat_map_const. intros p _. apply length_map. }
  assert (Hu : length (unload_actions self)
    = length (cargos self) * length (planes self) * length (airports self)).
  { rewrite unload_actions_order.
    rewrite (length_flat_map_const _ _ (length (planes self) * length (airports self)));
      [lia |].
    intros c _. apply length_flat_map_const. intros p _. apply length_map. }
  assert (Hf : length (fly_actions self)
    = length (planes self) * length (airports self)
      * (length (airports self) - 1)).
  { rewrite fly_actions_nested.
    rewrite (length_flat_map_const _ _
      ((length (airports self) - 1) * length (planes self))); [lia |].
    intros fr Hfr.
    apply (length_row_present (λ fr to, map (λ p, fly p fr to) (planes self)));
      [| done | done].
    intros fr' to'. apply length_map. }
  rewrite Hload, Hunload, Hfly.
  split; [done |]. split; [done |]. split; [done |]. split.
  - unfold get_actions. rewrite !length_app. lia.
  - intros x. by rewrite elem_of_get_actions, elem_of_load_actions,
      elem_of_unload_actions, elem_of_fly_actions.
Qed.

Lemma grounding_count_witness :
  length (filter (λ x, name x = "Fly") (get_actions air_cargo_p1))
  = 2 * 2 * (2 - 1)
  ∧ length (get_actions air_cargo_p1) = 2 * (2 * 2 * 2) + 2 * 2 * (2 - 1).
Proof.
  assert (Hnd : NoDup (airports air_cargo_p1)) by decide_by_computation.
  destruct (grounding_count air_cargo_p1 Hnd) as (_ & _ & Hfly & Hall & _).
  split; [exact Hfly | exact Hall].
Defined.

(** With an airport listed twice there are fewer fly actions than
    [p*a*(a-1)]: the count is about distinct airports. *)
Example fly_actions_duplicate_airport :
  length (fly_actions (mkAirCargoProblem [] ["P1"] ["JFK"; "JFK"]
                         (mkFluentState [] []) [])) = 0.
Proof. vm_compute. reflexivity. Qed.

(** C10.  The ground actions come in a fixed order: the load actions, then
    the unload actions, then the fly actions.  The load actions and the unload
    actions are enumerated with the cargo in the outermost loop, then the
    plane, then the airport.  The fly actions are enumerated with the airport
    of departure in the outermost loop, then the airport of arrival, then the
    plane: they are grouped by pair of airports, not by plane. *)
Theorem get_actions_order (self : AirCargoProblem) :
  get_actions self = load_actions self ++ unload_actions self ++ fly_actions self
  ∧ load_actions self
    = flat_map (λ c, flat_map (λ p, map (λ a, load c p a) (airports self))
                              (planes self)) (cargos self)
  ∧ unload_actions self
    = flat_map (λ c, flat_map (λ p, map (λ a, unload c p a) (airports self))
                              (planes self)) (cargos self)
  ∧ fly_actions self
    = flat_map (λ fr, flat_map (λ to,
          if bool_decide (fr ≠ to)
          then map (λ p, fly p fr to) (planes self) else [])
        (airports self)) (airports self)
  ∧ (∀ i j k c p a,
       cargos self !! i = Some c → planes self !! j = Some p →
       airports self !! k = Some a →
       load_actions self
         !! ((i * length (planes self) + j) * length (airports self) + k)
       = Some (load c p a)
       ∧ unload_actions self
           !! ((i * length (planes self) + j) * length (airports self) + k)
         = Some (unload c p a))
  ∧ (∀ i j fr to p,
       airport_pairs self !! i = Some (fr, to) → planes self !! j = Some p →
       fly_actions self !! (i * length (planes self) + j) = Some (fly p fr to)).
Proof.
  split; [done |]. split; [apply load_actions_order |].
  split; [apply unload_actions_order |]. split; [apply fly_actions_nested |].
  split.
  - intros i j k c p a Hi Hj Hk.
    rewrite load_actions_order, unload_actions_order.
    split; by apply lookup_three_loops.
  - intros i j fr to p Hi Hj. rewrite fly_actions_order.
    rewrite (lookup_flat_map_const _ _ (length (planes self)) _ _ (fr, to));
      [| | done |].
    + by rewrite lookup_map, Hj.
    + intros ft. apply length_map.
    + by apply lookup_lt_Some in Hj.
Qed.

Lemma get_actions_order_witness :
  load_actions air_cargo_p1 !! 5 = Some (load "C2" "P1" "SFO")
  ∧ unload_actions air_cargo_p1 !! 5 = Some (unload "C2" "P1" "SFO")
  ∧ fly_actions air_cargo_p1 !! 3 = Some (fly "P2" "SFO" "JFK").
Proof.
  destruct (get_actions_order air_cargo_p1) as (_ & _ & _ & _ & Hcpa & Hfly).
  destruct (Hcpa 1 0 1 "C2" "P1" "SFO") as [Hload Hunload];
    [reflexivity | reflexivity | reflexivity |].
  split; [exact Hload |]. split; [exact Hunload |].
  apply (Hfly 1 1 "SFO" "JFK" "P2"); vm_compute; reflexivity.
Defined.

(** In the first problem the two flights from JFK come before the two flights
    from SFO, and P1 before P2 within each pair of airports. *)
Example air_cargo_p1_fly_order :
  fly_actions air_cargo_p1
  = [fly "P1" "JFK" "SFO"; fly "P2" "JFK" "SFO";
     fly "P1" "SFO" "JFK"; fly "P2" "SFO" "JFK"].
Proof. vm_compute. reflexivity. Qed.

(** ** The memoized heuristics *)

(** The caches of the two memoized heuristics are the caches of the
    decorator for the functions they wrap. *)
Lemma h_ignore_preconditions_cache_after (problem_at : ident → AirCargoProblem)
    (history : list cache_key) :
  h_ignore_preconditions_cache problem_at history
  = lru_cache.after maxsize
      (λ key : cache_key, h_ignore_preconditions (problem_at key.1) key.2)
      history.
Proof.
  unfold h_ignore_preconditions_cache, lru_cache.after.
  generalize (@nil (cache_key * Z)).
  induction history as [| [i node] history IH]; intros c; simpl; [done |].
  apply IH.
Qed.

Lemma h_pg_levelsum_cache_after (problem_at : ident → AirCargoProblem)
    (PlanningGraph_h_levelsum : AirCargoProblem → string → Z)
    (history : list cache_key) :
  h_pg_levelsum_cache problem_at PlanningGraph_h_levelsum history
  = lru_cache.after maxsize
      (λ key : cache_key,
         h_pg_levelsum PlanningGraph_h_levelsum (problem_at key.1) key.2)
      history.
Proof.
  unfold h_pg_levelsum_cache, lru_cache.after.
  generalize (@nil (cache_key * Z)).
  induction history as [| [i node] history IH]; intros c; simpl; [done |].
  apply IH.
Qed.

(** C9.  [h_ignore_preconditions] and [h_pg_levelsum] are memoized: a call
    whose key (the identity of the problem with the state of the node) is in
    the cache returns the stored value, and every call leaves its key in the
    cache as the most recent one.  The cache built by the calls never has more
    than 8192 entries and holds the most recently used keys, the least
    recently used one being dropped.  Whatever calls were made before, the
    memoized function returns what the function itself returns for this
    problem and this node: a problem never gets the estimate stored for
    another problem, even for the same state. *)
Theorem memoized_heuristics_agree (problem_at : ident → AirCargoProblem)
    (PlanningGraph_h_levelsum : AirCargoProblem → string → Z)
    (history : list cache_key) (self : ident) (node : Node) :
  Z.of_nat maxsize = 8192%Z
  ∧ ((h_ignore_preconditions_cached problem_at
        (h_ignore_preconditions_cache problem_at history) self node).1
     = h_ignore_preconditions (problem_at self) node
     ∧ (h_pg_levelsum_cached problem_at PlanningGraph_h_levelsum
          (h_pg_levelsum_cache problem_at PlanningGraph_h_levelsum history)
          self node).1
       = h_pg_levelsum PlanningGraph_h_levelsum (problem_at self) node)
  ∧ (∀ (c : list (cache_key * Z)) (v : Z),
       lru_cache.find ((self, node) : cache_key) c = Some v →
       (h_ignore_preconditions_cached problem_at c self node).1 = v
       ∧ (h_pg_levelsum_cached problem_at PlanningGraph_h_levelsum c self node).1
         = v)
  ∧ ((length (h_ignore_preconditions_cache problem_at history) ≤ maxsize)%nat
     ∧ (length (h_pg_levelsum_cache problem_at PlanningGraph_h_levelsum history)
        ≤ maxsize)%nat)
  ∧ ((h_ignore_preconditions_cache problem_at history).*1
     = take maxsize (lru_cache.recency history)
     ∧ (h_pg_levelsum_cache problem_at PlanningGraph_h_levelsum history).*1
       = take maxsize (lru_cache.recency history))
  ∧ ((h_ignore_preconditions_cache problem_at (history ++ [(self, node)])).*1
     = (self, node)
       :: take (maxsize - 1)
            (filter (λ key, key ≠ (self, node)) (lru_cache.recency history))
     ∧ (h_pg_levelsum_cache problem_at PlanningGraph_h_levelsum
          (history ++ [(self, node)])).*1
       = (self, node)
         :: take (maxsize - 1)
              (filter (λ key, key ≠ (self, node)) (lru_cache.recency history))).
Proof.
  rewrite !h_ignore_preconditions_cache_after, !h_pg_levelsum_cache_after.
  split; [reflexivity |].
  split.
  { split.
    - exact (lru_call_after maxsize
        (λ key : cache_key, h_ignore_preconditions (problem_at key.1) key.2)
        history (self, node)).
    - exact (lru_call_after maxsize
        (λ key : cache_key,
           h_pg_levelsum PlanningGraph_h_levelsum (problem_at key.1) key.2)
        history (self, node)). }
  split.
  { intros c v Hfind.
    unfold h_ignore_preconditions_cached, h_pg_levelsum_cached, lru_cache.call.
    by rewrite Hfind. }
  split; [split; apply lru_after_invariant |].
  split; [split; apply lru_after_keys |].
  rewrite !lru_after_keys. unfold lru_cache.recency.
  rewrite fold_left_app. simpl. split; reflexivity.
Qed.

Lemma memoized_heuristics_agree_witness :
  (h_ignore_preconditions_cached (λ _, air_cargo_p1)
     [((0, mkNode "TTTTFFFFFFFF"), 7%Z)] 0 (mkNode "TTTTFFFFFFFF")).1 = 7%Z.
Proof.
  destruct (memoized_heuristics_agree (λ _, air_cargo_p1) (λ _ _, 0%Z) []
              0 (mkNode "TTTTFFFFFFFF")) as (_ & _ & Hhit & _).
  apply (Hhit [((0, mkNode "TTTTFFFFFFFF"), 7%Z)] 7%Z). reflexivity.
Defined.

(** Two problems with the same universe and different goals, asked one after
    the other for the same state: each gets its own estimate. *)
Example memoized_two_problems :
  let other := mkAirCargoProblem (cargos air_cargo_p1) (planes air_cargo_p1)
                 (airports air_cargo_p1) (initial air_cargo_p1)
                 [At "C1" "JFK"] in
  let problem_at := λ i : ident, if decide (i = 0) then air_cargo_p1 else other in
  let node := mkNode "TTTTFFFFFFFF" in
  let first := h_ignore_preconditions_cached problem_at [] 0 node in
  let second := h_ignore_preconditions_cached problem_at first.2 1 node in
  let third := h_ignore_preconditions_cached problem_at second.2 0 node in
  (first.1, second.1, third.1) = (2%Z, 1%Z, 2%Z)
  ∧ third.2.*1 = [(0, node); (1, node)].
Proof. vm_compute. split; reflexivity. Qed.

(** * Further properties of the code *)

(** ** States after [result] *)

Section result_states.
Variable self : AirCargoProblem.
Hypothesis universe_positive : Forall positive (state_map self).
Implicit Types (state : string) (a b : Action) (l : Expr).

(** The literals true after [result]: those of the universe that were true
    and are not removed, or that are added. *)
Lemma true_literals_result_iff state a l :
  l ∈ true_literals (result self state a) (state_map self)
  ↔ l ∈ state_map self
    ∧ ((l ∈ true_literals state (state_map self) ∧ l ∉ effect_rem a)
       ∨ l ∈ effect_add a).
Proof.
  rewrite result_effects by done. unfold result_spec, encode_set.
  rewrite true_literals_encode. simpl.
  by rewrite elem_of_elements, elem_of_true_set_after.
Qed.

(** Two calls of [result] that give the same true literals on the universe
    give the same state. *)
Lemma result_ext state1 state2 a b :
  (∀ l, l ∈ state_map self →
     ((l ∈ true_literals state1 (state_map self) ∧ l ∉ effect_rem a)
      ∨ l ∈ effect_add a)
     ↔ ((l ∈ true_literals state2 (state_map self) ∧ l ∉ effect_rem b)
        ∨ l ∈ effect_add b)) →
  result self state1 a = result self state2 b.
Proof.
  intros Hext. rewrite !result_effects by done.
  unfold result_spec, encode_set. apply encode_state_ext. intros l Hl. simpl.
  rewrite !elem_of_elements, !elem_of_true_set_after. by apply Hext.
Qed.

Lemma result_eq_state state0 state a :
  codec_state (state_map self) state →
  (∀ l, l ∈ state_map self →
     ((l ∈ true_literals state0 (state_map self) ∧ l ∉ effect_rem a)
      ∨ l ∈ effect_add a)
     ↔ l ∈ true_literals state (state_map self)) →
  result self state0 a = state.
Proof.
  intros [fs ->] Hext. rewrite result_effects by done.
  unfold result_spec, encode_set. apply encode_state_ext. intros l Hl. simpl.
  rewrite elem_of_elements, elem_of_true_set_after, (Hext l Hl).
  rewrite true_literals_encode. tauto.
Qed.

Lemma result_all_codec_state state plan :
  codec_state (state_map self) state →
  codec_state (state_map self) (result_all self state plan).
Proof.
  unfold result_all. revert state.
  induction plan as [| a plan IH]; intros state Hs; simpl; [done |].
  apply IH. unfold result.
  destruct (split_clauses _) as [ps ns]. by eexists.
Qed.
End result_states.

(** X1.  After [result], a literal is true iff it is in the atom universe and
    either was true and is not in [effect_rem], or is in [effect_add]: the
    literals the action does not name keep their value, and an effect on a
    literal that is not in the universe is lost. *)
Theorem result_true_literals (self : AirCargoProblem) (state : string)
    (action : Action) (l : Expr) :
  Forall positive (state_map self) →
  (l ∈ true_literals (result self state action) (state_map self)
   ↔ l ∈ state_map self
     ∧ ((l ∈ true_literals state (state_map self) ∧ l ∉ effect_rem action)
        ∨ l ∈ effect_add action))
  ∧ (l ∉ effect_add action → l ∉ effect_rem action →
     (l ∈ true_literals (result self state action) (state_map self)
      ↔ l ∈ true_literals state (state_map self)))
  ∧ (l ∉ state_map self →
     l ∉ true_literals (result self state action) (state_map self)).
Proof.
  intros Hpos. split; [by apply true_literals_result_iff |]. split.
  - intros Hadd Hrem. rewrite true_literals_result_iff by done.
    split; [tauto |]. intros Hl. split; [| tauto].
    by apply (true_literals_universe state).
  - intros Hout Hl. by apply Hout, (true_literals_universe (result self state action)).
Qed.

Lemma result_true_literals_witness :
  At "P1" "SFO" ∈ true_literals
     (result air_cargo_p2 (initial_state_TF air_cargo_p2) (load "C1" "P1" "SFO"))
     (state_map air_cargo_p2)
  ↔ At "P1" "SFO" ∈ true_literals (initial_state_TF air_cargo_p2)
                       (state_map air_cargo_p2).
Proof.
  assert (Hpos : Forall positive (state_map air_cargo_p2))
    by decide_by_computation.
  apply (proj1 (proj2 (result_true_literals air_cargo_p2
           (initial_state_TF air_cargo_p2) (load "C1" "P1" "SFO")
           (At "P1" "SFO") Hpos))); decide_by_computation.
Defined.

(** X2.  Every state reached from the initial state by [result], whatever the
    actions, is a string of [T] and [F] as long as the atom universe. *)
Theorem reachable_state_of (self : AirCargoProblem) (plan : list Action) :
  state_of (result_all self (initial_state_TF self) plan) (state_map self).
Proof.
  apply codec_state_state_of, result_all_codec_state.
  by exists (initial self).
Qed.

(** X3.  Applying an action twice gives the same state as applying it
    once. *)
Theorem result_idempotent (self : AirCargoProblem) (state : string)
    (action : Action) :
  Forall positive (state_map self) →
  result self (result self state action) action = result self state action.
Proof.
  intros Hpos. apply result_ext; [done |]. intros l Hl.
  rewrite true_literals_result_iff by done. tauto.
Qed.

Lemma result_idempotent_witness :
  result air_cargo_p3
    (result air_cargo_p3 (initial_state_TF air_cargo_p3) (fly "P1" "SFO" "ORD"))
    (fly "P1" "SFO" "ORD")
  = result air_cargo_p3 (initial_state_TF air_cargo_p3) (fly "P1" "SFO" "ORD").
Proof. apply result_idempotent. decide_by_computation. Defined.

(** X4.  Two actions neither of which removes a literal the other adds can
    be applied in either order. *)
Theorem result_commute (self : AirCargoProblem) (state : string)
    (a b : Action) :
  Forall positive (state_map self) →
  Forall (λ l, l ∉ effect_rem b) (effect_add a) →
  Forall (λ l, l ∉ effect_rem a) (effect_add b) →
  result self (result self state a) b = result self (result self state b) a.
Proof.
  intros Hpos Hab Hba. rewrite Forall_forall in Hab, Hba.
  apply result_ext; [done |]. intros l Hl.
  rewrite !true_literals_result_iff by done.
  specialize (Hab l). specialize (Hba l). tauto.
Qed.

Lemma result_commute_witness :
  result air_cargo_p2
    (result air_cargo_p2 (initial_state_TF air_cargo_p2) (load "C1" "P1" "SFO"))
    (fly "P2" "JFK" "ATL")
  = result air_cargo_p2
      (result air_cargo_p2 (initial_state_TF air_cargo_p2) (fly "P2" "JFK" "ATL"))
      (load "C1" "P1" "SFO").
Proof. apply result_commute; decide_by_computation. Defined.

(** An action whose effects are the effects of another one exchanged brings
    the state back, when the first one removed true literals and added false
    ones. *)
Lemma result_inverse (self : AirCargoProblem) (state : string) (a b : Action) :
  Forall positive (state_map self) →
  codec_state (state_map self) state →
  effect_add b = effect_rem a → effect_rem b = effect_add a →
  Forall (λ l, l ∈ true_literals state (state_map self)) (effect_rem a) →
  Forall (λ l, l ∉ true_literals state (state_map self)) (effect_add a) →
  result self (result self state a) b = state.
Proof.
  intros Hpos Hs Hadd Hrem Htrue Hfalse. rewrite Forall_forall in Htrue, Hfalse.
  apply result_eq_state; [done | done |]. intros l Hl.
  rewrite true_literals_result_iff, Hadd, Hrem by done.
  specialize (Htrue l). specialize (Hfalse l).
  destruct (decide (l ∈ effect_rem a)); tauto.
Qed.

(** X5.  Unloading undoes loading and flying back undoes flying: from a
    state where the cargo is at the airport and not in the plane,
    Load(c,p,a) then Unload(c,p,a) gives the state back; from a state where
    the plane is at [fr] and not at [to], Fly(p,fr,to) then Fly(p,to,fr) gives
    the state back. *)
Theorem unload_undoes_load_fly_back (self : AirCargoProblem) (state : string) :
  Forall positive (state_map self) →
  codec_state (state_map self) state →
  (∀ c p a,
     At c a ∈ true_literals state (state_map self) →
     In_ c p ∉ true_literals state (state_map self) →
     result self (result self state (load c p a)) (unload c p a) = state)
  ∧ (∀ p fr to,
       At p fr ∈ true_literals state (state_map self) →
       At p to ∉ true_literals state (state_map self) →
       result self (result self state (fly p fr to)) (fly p to fr) = state).
Proof.
  intros Hpos Hs. split.
  - intros c p a Hat Hin. apply result_inverse; try done; simpl;
      by repeat constructor.
  - intros p fr to Hfr Hto. apply result_inverse; try done; simpl;
      by repeat constructor.
Qed.

Lemma unload_undoes_load_fly_back_witness :
  result air_cargo_p3
    (result air_cargo_p3 (initial_state_TF air_cargo_p3) (load "C4" "P2" "ORD"))
    (unload "C4" "P2" "ORD")
  = initial_state_TF air_cargo_p3
  ∧ result air_cargo_p3
      (result air_cargo_p3 (initial_state_TF air_cargo_p3) (fly "P2" "JFK" "ORD"))
      (fly "P2" "ORD" "JFK")
    = initial_state_TF air_cargo_p3.
Proof.
  assert (Hpos : Forall positive (state_map air_cargo_p3))
    by decide_by_computation.
  assert (Hs : codec_state (state_map air_cargo_p3) (initial_state_TF air_cargo_p3))
    by (by exists (initial air_cargo_p3)).
  destruct (unload_undoes_load_fly_back air_cargo_p3 _ Hpos Hs) as [Hload Hfly].
  split; [apply Hload | apply Hfly]; decide_by_computation.
Defined.


(** ** The goal and the heuristic *)

Section unmet_goals.
Variable self : AirCargoProblem.
Implicit Types (state : string) (a : Action) (plan : list Action).

Lemma goal_test_true state :
  goal_test self state = true
  ↔ Forall (λ g, g ∈ true_literals state (state_map self)) (goal self).
Proof. unfold goal_test. by rewrite goal_loop_true. Qed.

Lemma h_ignore_preconditions_unmet state :
  Forall positive (goal self) →
  h_ignore_preconditions self (mkNode state) = Z.of_nat (length (unmet self state)).
Proof.
  intros Hpos. unfold h_ignore_preconditions, unmet. do 2 f_equal.
  apply filter_ext_elem. intros g Hg. simpl.
  rewrite Forall_forall in Hpos. by rewrite sentence_positive by auto.
Qed.

Lemma unmet_nil state : unmet self state = [] ↔ goal_test self state = true.
Proof.
  rewrite goal_test_true. unfold unmet.
  induction (goal self) as [| g gs IH]; [by split; [constructor |] |].
  rewrite Forall_cons, filter_cons, <- IH.
  destruct (decide (g ∉ true_literals state (state_map self))) as [Hg | Hg].
  - split; [done | tauto].
  - apply dec_stable in Hg. tauto.
Qed.

(** A step that makes at most one literal true meets at most one goal
    literal, when the goal lists no literal twice. *)
Lemma unmet_step (goals : list Expr) (P P' : Expr → Prop)
    `{∀ g, Decision (P g)} `{∀ g, Decision (P' g)} (n : Expr) :
  NoDup goals →
  (∀ g, g ∈ goals → P g → P' g ∨ g = n) →
  (length (filter P goals) ≤ S (length (filter P' goals)))%nat
  ∧ (n ∉ goals → (length (filter P goals) ≤ length (filter P' goals))%nat).
Proof.
  induction 1 as [| g goals Hg Hnd IH]; intros Hstep; [simpl; lia |].
  destruct IH as [IH1 IH2]; [intros; apply Hstep; [by right | done] |].
  rewrite !filter_cons.
  destruct (decide (P g)) as [HP | HP], (decide (P' g)) as [HP' | HP'];
    simpl; (split; [| intros [Hne Hout]%not_elem_of_cons; specialize (IH2 Hout)]);
    try lia.
  - destruct (Hstep g) as [? | ->]; [by left | done | done |].
    specialize (IH2 Hg). lia.
  - destruct (Hstep g) as [? | ->]; [by left | done | done | done].
Qed.
End unmet_goals.

(** X6.  [h_ignore_preconditions] is at most the number of goal literals,
    and, for a goal of positive literals, it is 0 exactly in the states where
    [goal_test] is true. *)
Theorem h_ignore_preconditions_zero_iff_goal (self : AirCargoProblem)
    (state : string) :
  (h_ignore_preconditions self (mkNode state) ≤ Z.of_nat (length (goal self)))%Z
  ∧ (Forall positive (goal self) →
     (h_ignore_preconditions self (mkNode state) = 0%Z
      ↔ goal_test self state = true)).
Proof.
  split.
  - unfold h_ignore_preconditions.
    apply inj_le, length_filter.
  - intros Hpos. rewrite h_ignore_preconditions_unmet by done.
    rewrite <- unmet_nil. destruct (unmet self state); simpl; split; try done; lia.
Qed.

Lemma h_ignore_preconditions_zero_iff_goal_witness :
  h_ignore_preconditions air_cargo_p3 (mkNode (initial_state_TF air_cargo_p3)) = 0%Z
  ↔ goal_test air_cargo_p3 (initial_state_TF air_cargo_p3) = true.
Proof.
  apply (proj2 (h_ignore_preconditions_zero_iff_goal air_cargo_p3
                  (initial_state_TF air_cargo_p3))).
  decide_by_computation.
Defined.

(** A ground action adds one literal, removes one literal, which is one of
    its positive preconditions and is not the literal it adds, and has no
    negative precondition. *)
Lemma ground_action_shape (self : AirCargoProblem) (x : Action) :
  x ∈ get_actions self →
  ∃ n r, effect_add x = [n] ∧ effect_rem x = [r] ∧ r ∈ precond_pos x
         ∧ n ≠ r ∧ precond_neg x = []
         ∧ is_Some (located n) ∧ located n = located r.
Proof.
  rewrite elem_of_get_actions, elem_of_load_actions, elem_of_unload_actions,
    elem_of_fly_actions.
  intros [(c & p & a & _ & _ & _ & ->) | [(c & p & a & _ & _ & _ & ->)
          | (p & fr & to & _ & _ & _ & Hne & ->)]]; simpl.
  - exists (In_ c p), (At c a).
    split; [done |]. split; [done |]. split; [by left |]. split; [done |].
    split; [done |]. split; [by eexists | done].
  - exists (At c a), (In_ c p).
    split; [done |]. split; [done |]. split; [by left |]. split; [done |].
    split; [done |]. split; [by eexists | done].
  - exists (At p to), (At p fr).
    split; [done |]. split; [done |]. split; [by left |].
    split; [intros [= ->]; by apply Hne |].
    split; [done |]. split; [by eexists | done].
Qed.

Lemma unmet_result (self : AirCargoProblem) (state : string) (a : Action) :
  Forall positive (state_map self) → NoDup (goal self) →
  a ∈ get_actions self →
  (length (unmet self state) ≤ S (length (unmet self (result self state a))))%nat.
Proof.
  intros Hpos Hnd (n & r & Hadd & _)%ground_action_shape.
  apply (unmet_step (goal self) _ _ n Hnd). intros g Hg Hfalse.
  destruct (decide (g = n)) as [-> | Hne]; [by right | left].
  rewrite true_literals_result_iff, Hadd, list_elem_of_singleton by done.
  tauto.
Qed.

(** X7.  [h_ignore_preconditions] never overestimates: a plan of ground
    actions that reaches the goal from a state has at least as many steps as
    the heuristic says there.  The goal lists positive literals, none
    twice. *)
Theorem h_ignore_preconditions_admissible (self : AirCargoProblem)
    (state : string) (plan : list Action) :
  Forall positive (state_map self) →
  Forall positive (goal self) → NoDup (goal self) →
  ground_plan self plan →
  goal_test self (result_all self state plan) = true →
  (h_ignore_preconditions self (mkNode state) ≤ Z.of_nat (length plan))%Z.
Proof.
  intros Hpos Hgoal Hnd Hplan Hreach.
  rewrite h_ignore_preconditions_unmet by done. apply inj_le.
  revert state Hreach. induction Hplan as [| a plan Ha Hplan IH];
    intros state Hreach.
  - apply unmet_nil in Hreach. unfold result_all in Hreach. simpl in Hreach.
    by rewrite Hreach.
  - specialize (IH (result self state a) Hreach).
    pose proof (unmet_result self state a Hpos Hnd Ha). simpl. lia.
Qed.

(** The plan of the second problem, nine steps. *)
Lemma h_ignore_preconditions_admissible_witness :
  (h_ignore_preconditions air_cargo_p2 (mkNode (initial_state_TF air_cargo_p2))
   ≤ 9)%Z.
Proof.
  apply (h_ignore_preconditions_admissible air_cargo_p2 _
    [load "C1" "P1" "SFO"; fly "P1" "SFO" "JFK"; unload "C1" "P1" "JFK";
     load "C2" "P2" "JFK"; fly "P2" "JFK" "SFO"; unload "C2" "P2" "SFO";
     load "C3" "P3" "ATL"; fly "P3" "ATL" "SFO"; unload "C3" "P3" "SFO"]).
  - decide_by_computation.
  - decide_by_computation.
  - decide_by_computation.
  - unfold ground_plan. decide_by_computation.
  - vm_compute. reflexivity.
Defined.

(** With a goal literal listed twice the heuristic counts it twice, and one
    step can meet both. *)
Example h_ignore_preconditions_duplicate_goal :
  let problem := mkAirCargoProblem ["C1"] ["P1"] ["JFK"]
                   (mkFluentState [In_ "C1" "P1"; At "P1" "JFK"] [At "C1" "JFK"])
                   [At "C1" "JFK"; At "C1" "JFK"] in
  h_ignore_preconditions problem (mkNode (initial_state_TF problem)) = 2%Z
  ∧ goal_test problem
      (result problem (initial_state_TF problem) (unload "C1" "P1" "JFK")) = true.
Proof. split; vm_compute; reflexivity. Qed.

(** ** The ground actions and the states *)

(** X8.  No ground action has a negative precondition, so [actions] returns
    the ground actions whose positive preconditions are all true in the
    state. *)
Theorem actions_positive_preconditions (self : AirCargoProblem)
    (state : string) (x : Action) :
  (x ∈ get_actions self → precond_neg x = [])
  ∧ (x ∈ actions self state
     ↔ x ∈ get_actions self
       ∧ Forall (λ l, l ∈ true_literals state (state_map self)) (precond_pos x)).
Proof.
  split.
  - by intros (n & r & _ & _ & _ & _ & Hneg & _)%ground_action_shape.
  - unfold actions, actions_list. rewrite list_elem_of_filter. split.
    + intros [Hpre Hx]. split; [done |].
      destruct (get_actions_positive self x Hx) as [Hp Hn].
      by apply check_precond_applicable in Hpre as [Hpos _].
    + intros [Hx Hpre]. split; [| done].
      destruct (get_actions_positive self x Hx) as [Hp Hn].
      apply check_precond_applicable; [done | done |]. split; [done |].
      apply ground_action_shape in Hx as (n & r & _ & _ & _ & _ & -> & _).
      constructor.
Qed.

Lemma actions_positive_preconditions_witness :
  precond_neg (fly "P1" "SFO" "ATL") = [].
Proof.
  apply (proj1 (actions_positive_preconditions air_cargo_p2 "" _)).
  decide_by_computation.
Defined.

(** X9.  Every ground action removes exactly one literal and adds exactly
    one; the literal it removes is one of its preconditions and is not the
    literal it adds.  An action returned by [actions] therefore removes a
    literal that is true. *)
Theorem ground_action_effects (self : AirCargoProblem) (state : string)
    (x : Action) :
  (x ∈ get_actions self →
   ∃ n r, effect_add x = [n] ∧ effect_rem x = [r] ∧ n ≠ r ∧ r ∈ precond_pos x)
  ∧ (x ∈ actions self state →
     Forall (λ l, l ∈ true_literals state (state_map self)) (effect_rem x)).
Proof.
  split.
  - intros (n & r & Hadd & Hrem & Hpre & Hne & _)%ground_action_shape.
    by exists n, r.
  - intros Hx. apply Forall_forall. intros l Hl.
    unfold actions, actions_list in Hx.
    apply list_elem_of_filter in Hx as [Hpre Hx].
    destruct (get_actions_positive self x Hx) as [Hp Hn].
    apply check_precond_applicable in Hpre as [Hpos _]; [| done | done].
    apply ground_action_shape in Hx as (n & r & _ & Hrem & Hin & _).
    rewrite Hrem in Hl. apply list_elem_of_singleton in Hl as ->.
    rewrite Forall_forall in Hpos. by apply Hpos.
Qed.

Lemma ground_action_effects_witness :
  Forall (λ l, l ∈ true_literals (initial_state_TF air_cargo_p3)
                     (state_map air_cargo_p3))
         (effect_rem (load "C1" "P1" "SFO")).
Proof.
  apply (proj2 (ground_action_effects air_cargo_p3 _ _)).
  decide_by_computation.
Defined.

(** X10.  No object in two places: if in a state no two true literals locate
    the same cargo or plane, the same holds after any action returned by
    [actions]. *)
Theorem single_location_preserved (self : AirCargoProblem) (state : string)
    (x : Action) :
  Forall positive (state_map self) →
  x ∈ actions self state →
  single_location (true_literals state (state_map self)) →
  single_location (true_literals (result self state x) (state_map self)).
Proof.
  intros Hpos Hx Hsingle.
  assert (Htrue : Forall (λ l, l ∈ true_literals state (state_map self))
                         (effect_rem x)).
  { apply Forall_forall. intros l Hl.
    unfold actions, actions_list in Hx.
    apply list_elem_of_filter in Hx as [Hpre Hx].
    destruct (get_actions_positive self x Hx) as [Hp Hn].
    apply check_precond_applicable in Hpre as [Hpre _]; [| done | done].
    apply ground_action_shape in Hx as (n & r & _ & Hrem & Hin & _).
    rewrite Hrem in Hl. apply list_elem_of_singleton in Hl as ->.
    rewrite Forall_forall in Hpre. by apply Hpre. }
  assert (Hx' : x ∈ get_actions self).
  { unfold actions, actions_list in Hx. by apply list_elem_of_filter in Hx as [_ ?]. }
  apply ground_action_shape in Hx' as (n & r & Hadd & Hrem & _ & _ & _ & Hsome & Hloc).
  rewrite Hrem, Forall_singleton in Htrue.
  unfold single_location in *.
  rewrite Forall_forall in Hsingle. setoid_rewrite Forall_forall in Hsingle.
  apply Forall_forall. intros l1 H1. apply Forall_forall. intros l2 H2 Hs Heq.
  apply true_literals_result_iff in H1 as [_ H1]; [| done].
  apply true_literals_result_iff in H2 as [_ H2]; [| done].
  rewrite Hadd, Hrem in H1, H2.
  rewrite !list_elem_of_singleton in H1, H2.
  destruct H1 as [[H1 Hne1] | ->], H2 as [[H2 Hne2] | ->].
  - by apply Hsingle.
  - destruct Hne1. apply Hsingle; [done | done | done | congruence].
  - destruct Hne2. symmetry.
    apply Hsingle; [done | done | by rewrite <- Hloc | congruence].
  - done.
Qed.

Lemma single_location_preserved_witness :
  single_location (true_literals
    (result air_cargo_p3 (initial_state_TF air_cargo_p3) (load "C1" "P1" "SFO"))
    (state_map air_cargo_p3)).
Proof.
  apply single_location_preserved.
  - decide_by_computation.
  - decide_by_computation.
  - unfold single_location. decide_by_computation.
Defined.

(** ** The initial state *)

Section initial_state.
Implicit Types (fs : FluentState) (ls ps ns : list Expr).

Lemma encode_state_app fs ls1 ls2 :
  encode_state fs (ls1 ++ ls2) = encode_state fs ls1 +:+ encode_state fs ls2.
Proof. induction ls1 as [| l ls1 IH]; simpl; [done |]. by rewrite IH. Qed.

Lemma encode_state_all_true fs ls :
  Forall (λ l, l ∈ pos fs) ls →
  encode_state fs ls = repeat_char "T" (length ls).
Proof.
  induction 1 as [| l ls Hl Hls IH]; simpl; [done |].
  by rewrite bool_decide_true, IH by done.
Qed.

Lemma encode_state_all_false fs ls :
  Forall (λ l, l ∉ pos fs) ls →
  encode_state fs ls = repeat_char "F" (length ls).
Proof.
  induction 1 as [| l ls Hl Hls IH]; simpl; [done |].
  by rewrite bool_decide_false, IH by done.
Qed.

Lemma decode_state_all_false ns :
  decode_state (repeat_char "F" (length ns)) ns = mkFluentState [] ns.
Proof.
  induction ns as [| l ns IH]; simpl; [done |]. by rewrite IH.
Qed.

Lemma decode_state_partition ps ns :
  decode_state (repeat_char "T" (length ps) +:+ repeat_char "F" (length ns))
               (ps ++ ns)
  = mkFluentState ps ns.
Proof.
  induction ps as [| l ps IH]; simpl; [apply decode_state_all_false |].
  by rewrite IH.
Qed.
End initial_state.

(** X11.  The initial state starts with one [T] for each literal of
    [initial.pos]; a literal of [initial.neg] gets [T] too when it is also in
    [initial.pos].  When no literal is in both lists, the initial state is
    the [T]s followed by one [F] for each literal of [initial.neg], and it
    decodes to the fluent state the problem was built from. *)
Theorem initial_state_partition (self : AirCargoProblem) :
  initial_state_TF self
  = repeat_char "T" (length (pos (initial self)))
    +:+ encode_state (initial self) (neg (initial self))
  ∧ (Forall (λ l, l ∉ pos (initial self)) (neg (initial self)) →
     initial_state_TF self
     = repeat_char "T" (length (pos (initial self)))
       +:+ repeat_char "F" (length (neg (initial self)))
     ∧ decode_state (initial_state_TF self) (state_map self) = initial self).
Proof.
  assert (Hinit : initial_state_TF self
    = repeat_char "T" (length (pos (initial self)))
      +:+ encode_state (initial self) (neg (initial self))).
  { unfold initial_state_TF, state_map. rewrite encode_state_app.
    f_equal. apply encode_state_all_true. by apply Forall_forall. }
  split; [done |]. intros Hdisjoint.
  rewrite Hinit, encode_state_all_false by done. split; [done |].
  unfold state_map. rewrite decode_state_partition. by destruct (initial self).
Qed.

Lemma initial_state_partition_witness :
  decode_state (initial_state_TF air_cargo_p3) (state_map air_cargo_p3)
  = initial air_cargo_p3.
Proof.
  apply (proj2 (initial_state_partition air_cargo_p3)).
  decide_by_computation.
Defined.

(** A literal listed as true and as false is true in the initial state, at
    both its places. *)
Example initial_state_overlap :
  initial_state_TF (mkAirCargoProblem ["C1"] ["P1"] ["JFK"]
                      (mkFluentState [At "C1" "JFK"] [At "C1" "JFK"]) [])
  = "TT".
Proof. vm_compute. reflexivity. Qed.

(** ** More on the grounder *)

Section distinct.
Context {A B : Type}.
Implicit Types (xs : list A) (f : A → list B) (tag : B → option A).

Lemma elem_of_flat_map f xs z :
  z ∈ flat_map f xs ↔ ∃ x, x ∈ xs ∧ z ∈ f x.
Proof.
  rewrite list_elem_of_In, in_flat_map.
  by setoid_rewrite list_elem_of_In.
Qed.

(** Blocks that tell which element they were made from do not overlap. *)
Lemma NoDup_flat_map_tag tag f xs :
  NoDup xs →
  (∀ x z, z ∈ f x → tag z = Some x) →
  (∀ x, x ∈ xs → NoDup (f x)) →
  NoDup (flat_map f xs).
Proof.
  intros Hnd Htag. induction Hnd as [| x xs Hx Hnd IH]; intros Hf; simpl.
  - constructor.
  - apply NoDup_app. split; [apply Hf; by left |].
    split; [| apply IH; intros; apply Hf; by right].
    intros z Hz (y & Hy & Hzy)%elem_of_flat_map.
    apply Htag in Hz, Hzy. congruence.
Qed.

Lemma NoDup_map_tag tag (g : A → B) xs :
  NoDup xs → (∀ x, tag (g x) = Some x) → NoDup (map g xs).
Proof.
  intros Hnd Htag.
  apply (NoDup_flat_map_tag tag (λ x, [g x]) xs) in Hnd.
  - revert Hnd. clear. induction xs as [| x xs IH]; simpl; [done |].
    rewrite !NoDup_cons. intros [Hx Hnd]. split; [| auto].
    intros Hin. apply Hx. clear -Hin.
    induction xs as [| y xs IH]; simpl in *; [done |].
    apply elem_of_cons in Hin as [-> | Hin]; [by left | right; auto].
  - intros x z ->%list_elem_of_singleton. apply Htag.
  - intros. apply NoDup_singleton.
Qed.
End distinct.

(** X12.  With distinct cargos, distinct planes and distinct airports, no
    ground action is produced twice. *)
Theorem get_actions_NoDup (self : AirCargoProblem) :
  NoDup (cargos self) → NoDup (planes self) → NoDup (airports self) →
  NoDup (get_actions self).
Proof.
  intros Hc Hp Ha. unfold get_actions.
  apply NoDup_app. split; [| split; [| apply NoDup_app; split; [| split]]].
  - rewrite load_actions_order.
    apply (NoDup_flat_map_tag (λ z, args z !! 0)); [done | |].
    + intros c z (p & _ & Hz)%elem_of_flat_map.
      apply list_elem_of_In, in_map_iff in Hz as (a & <- & _). done.
    + intros c _. apply (NoDup_flat_map_tag (λ z, args z !! 1)); [done | |].
      * intros p z Hz. apply list_elem_of_In, in_map_iff in Hz as (a & <- & _). done.
      * intros p _. by apply (NoDup_map_tag (λ z, args z !! 2)).
  - intros x Hx [Hu | Hf]%elem_of_app.
    + apply elem_of_load_actions in Hx as (? & ? & ? & _ & _ & _ & ->).
      by apply elem_of_unload_actions in Hu as (? & ? & ? & _ & _ & _ & ?).
    + apply elem_of_load_actions in Hx as (? & ? & ? & _ & _ & _ & ->).
      by apply elem_of_fly_actions in Hf as (? & ? & ? & _ & _ & _ & _ & ?).
  - rewrite unload_actions_order.
    apply (NoDup_flat_map_tag (λ z, args z !! 0)); [done | |].
    + intros c z (p & _ & Hz)%elem_of_flat_map.
      apply list_elem_of_In, in_map_iff in Hz as (a & <- & _). done.
    + intros c _. apply (NoDup_flat_map_tag (λ z, args z !! 1)); [done | |].
      * intros p z Hz. apply list_elem_of_In, in_map_iff in Hz as (a & <- & _). done.
      * intros p _. by apply (NoDup_map_tag (λ z, args z !! 2)).
  - intros x Hx Hf.
    apply elem_of_unload_actions in Hx as (? & ? & ? & _ & _ & _ & ->).
    by apply elem_of_fly_actions in Hf as (? & ? & ? & _ & _ & _ & _ & ?).
  - rewrite fly_actions_nested.
    apply (NoDup_flat_map_tag (λ z, args z !! 1)); [done | |].
    + intros fr z (to & _ & Hz)%elem_of_flat_map.
      case_bool_decide; [| by apply elem_of_nil in Hz].
      apply list_elem_of_In, in_map_iff in Hz as (p & <- & _). done.
    + intros fr _. apply (NoDup_flat_map_tag (λ z, args z !! 2)); [done | |].
      * intros to z Hz. case_bool_decide; [| by apply elem_of_nil in Hz].
        apply list_elem_of_In, in_map_iff in Hz as (p & <- & _). done.
      * intros to _. case_bool_decide; [| constructor].
        by apply (NoDup_map_tag (λ z, args z !! 0)).
Qed.

Lemma get_actions_NoDup_witness : NoDup (get_actions air_cargo_p3).
Proof. apply get_actions_NoDup; decide_by_computation. Defined.

(** A cargo listed twice gives every one of its load actions twice. *)
Example get_actions_duplicate_cargo :
  load_actions (mkAirCargoProblem ["C1"; "C1"] ["P1"] ["JFK"]
                  (mkFluentState [] []) [])
  = [load "C1" "P1" "JFK"; load "C1" "P1" "JFK"].
Proof. vm_compute. reflexivity. Qed.

Lemma no_elem_nil {A : Type} (l : list A) : (∀ x, x ∉ l) → l = [].
Proof. destruct l as [| x l]; [done |]. intros Hl. destruct (Hl x). by left. Qed.

(** X13.  Without planes, or without airports, there is no ground action at
    all; without cargos there are only the fly actions; with a single airport
    there is no fly action. *)
Theorem get_actions_empty (self : AirCargoProblem) :
  (planes self = [] → get_actions self = [])
  ∧ (airports self = [] → get_actions self = [])
  ∧ (cargos self = [] → get_actions self = fly_actions self)
  ∧ (∀ a, airports self = [a] → fly_actions self = []).
Proof.
  split; [| split; [| split]].
  - intros Hp. apply no_elem_nil. intros x.
    rewrite elem_of_get_actions, elem_of_load_actions, elem_of_unload_actions,
      elem_of_fly_actions, Hp.
    intros [(c & p & a & _ & Hin & _) | [(c & p & a & _ & Hin & _)
            | (p & fr & to & Hin & _)]]; by apply elem_of_nil in Hin.
  - intros Ha. apply no_elem_nil. intros x.
    rewrite elem_of_get_actions, elem_of_load_actions, elem_of_unload_actions,
      elem_of_fly_actions, Ha.
    intros [(c & p & a & _ & _ & Hin & _) | [(c & p & a & _ & _ & Hin & _)
            | (p & fr & to & _ & Hin & _)]]; by apply elem_of_nil in Hin.
  - intros Hc. unfold get_actions.
    rewrite (no_elem_nil (load_actions self)), (no_elem_nil (unload_actions self));
      [done | |].
    + intros x (c & p & a & Hin & _)%elem_of_unload_actions.
      rewrite Hc in Hin. by apply elem_of_nil in Hin.
    + intros x (c & p & a & Hin & _)%elem_of_load_actions.
      rewrite Hc in Hin. by apply elem_of_nil in Hin.
  - intros a Ha. apply no_elem_nil.
    intros x (p & fr & to & _ & Hfr & Hto & Hne & _)%elem_of_fly_actions.
    rewrite Ha in Hfr, Hto.
    apply list_elem_of_singleton in Hfr, Hto. congruence.
Qed.

Lemma get_actions_empty_witness :
  fly_actions (mkAirCargoProblem ["C1"] ["P1"] ["JFK"]
                 (mkFluentState [At "C1" "JFK"; At "P1" "JFK"] [In_ "C1" "P1"])
                 [In_ "C1" "P1"]) = [].
Proof.
  apply (proj2 (proj2 (proj2 (get_actions_empty _))) "JFK"). reflexivity.
Defined.

Section counting_any.
Context {B : Type}.
Variable g : Term → Term → list B.
Variable n : nat.
Hypothesis g_length : ∀ fr to, length (g fr to) = n.

(** A row of the airports has at most one block for each airport, and one
    fewer when the airport of departure is among them. *)
Lemma length_row_le (fr : Term) (l : list Term) :
  (length (flat_map (λ to, if bool_decide (fr ≠ to) then g fr to else []) l)
   ≤ length l * n)%nat
  ∧ (fr ∈ l →
     (length (flat_map (λ to, if bool_decide (fr ≠ to) then g fr to else []) l)
      ≤ (length l - 1) * n)%nat).
Proof.
  induction l as [| to l [IH1 IH2]]; simpl.
  - split; [lia | by inversion 1].
  - rewrite length_app. case_bool_decide as Hne.
    + rewrite g_length. split; [lia |].
      intros [? | Hin]%elem_of_cons; [done |]. specialize (IH2 Hin).
      assert (0 < length l)%nat by (destruct l; [by inversion Hin | simpl; lia]).
      destruct (length l); simpl in *; lia.
    + simpl. split; [lia |]. intros _. lia.
Qed.
End counting_any.

(** X14.  For any lists of cargos, planes and airports, also with repeated
    names, there are [c*p*a] load actions and [c*p*a] unload actions, and at
    most [p*a*(a-1)] fly actions. *)
Theorem grounding_count_any (self : AirCargoProblem) :
  length (load_actions self)
  = length (cargos self) * length (planes self) * length (airports self)
  ∧ length (unload_actions self)
    = length (cargos self) * length (planes self) * length (airports self)
  ∧ (length (fly_actions self)
     ≤ length (planes self) * length (airports self)
       * (length (airports self) - 1))%nat.
Proof.
  split; [| split].
  - rewrite load_actions_order.
    rewrite (length_flat_map_const _ _ (length (planes self) * length (airports self)));
      [lia |].
    intros c _. apply length_flat_map_const. intros p _. apply length_map.
  - rewrite unload_actions_order.
    rewrite (length_flat_map_const _ _ (length (planes self) * length (airports self)));
      [lia |].
    intros c _. apply length_flat_map_const. intros p _. apply length_map.
  - rewrite fly_actions_nested.
    assert (Hrows : ∀ l, l ⊆ airports self →
      (length (flat_map (λ fr, flat_map (λ to,
          if bool_decide (fr ≠ to)
          then map (λ p, fly p fr to) (planes self) else [])
        (airports self)) l)
       ≤ length l * ((length (airports self) - 1) * length (planes self)))%nat).
    { induction l as [| fr l IH]; intros Hl; simpl; [lia |].
      rewrite length_app.
      assert (Hfr : fr ∈ airports self) by (apply Hl; by left).
      pose proof (proj2 (length_row_le
        (λ fr to, map (λ p, fly p fr to) (planes self)) (length (planes self))
        (λ fr' to', length_map _ _) fr (airports self)) Hfr) as Hrow.
      assert (Hl' : l ⊆ airports self) by (intros y Hy; apply Hl; by right).
      specialize (IH Hl'). lia. }
    specialize (Hrows (airports self) ltac:(done)). lia.
Qed.

(** ** Actions and their successors *)

Lemma actions_elem (self : AirCargoProblem) (state : string) (x : Action) :
  x ∈ actions self state
  ↔ x ∈ get_actions self
    ∧ Forall (λ l, l ∈ true_literals state (state_map self)) (precond_pos x).
Proof.
  unfold actions, actions_list. rewrite list_elem_of_filter. split.
  - intros [Hpre Hx]. split; [done |].
    destruct (get_actions_positive self x Hx) as [Hp Hn].
    by apply check_precond_applicable in Hpre as [Hpos _].
  - intros [Hx Hpre]. split; [| done].
    destruct (get_actions_positive self x Hx) as [Hp Hn].
    apply check_precond_applicable; [done | done |]. split; [done |].
    apply ground_action_shape in Hx as (n & r & _ & _ & _ & _ & -> & _).
    constructor.
Qed.

(** X15.  An action returned by [actions] always changes the state: [result]
    never gives the state back. *)
Theorem actions_change_state (self : AirCargoProblem) (state : string)
    (x : Action) :
  Forall positive (state_map self) →
  x ∈ actions self state →
  result self state x ≠ state.
Proof.
  intros Hpos [Hx Hpre]%actions_elem Heq.
  apply ground_action_shape in Hx as (n & r & Hadd & Hrem & Hin & Hne & _).
  rewrite Forall_forall in Hpre. specialize (Hpre r Hin).
  assert (Hr : r ∈ true_literals (result self state x) (state_map self))
    by (by rewrite Heq).
  apply true_literals_result_iff in Hr as [_ Hr]; [| done].
  rewrite Hadd, Hrem, !list_elem_of_singleton in Hr.
  destruct Hr as [[_ Hr] | Hr]; [by apply Hr | by apply Hne].
Qed.

Lemma actions_change_state_witness :
  result air_cargo_p2 (initial_state_TF air_cargo_p2) (fly "P3" "ATL" "JFK")
  ≠ initial_state_TF air_cargo_p2.
Proof. apply actions_change_state; decide_by_computation. Defined.

(** X16.  After a load returned by [actions], the unload of the same cargo
    from the same plane at the same airport is returned by [actions], when the
    universe has the literal In(c,p) and the cargo is not named as the
    plane. *)
Theorem unload_after_load (self : AirCargoProblem) (state : string)
    (c p a : Term) :
  Forall positive (state_map self) →
  In_ c p ∈ state_map self →
  c ≠ p →
  load c p a ∈ actions self state →
  unload c p a ∈ actions self (result self state (load c p a)).
Proof.
  intros Hpos Huniv Hne [Hx Hpre]%actions_elem. apply actions_elem. split.
  - apply elem_of_get_actions in Hx as [Hx | [Hx | Hx]].
    + apply elem_of_load_actions in Hx as (c' & p' & a' & Hc & Hp & Ha & [= -> -> ->]).
      apply elem_of_get_actions. right. left.
      apply elem_of_unload_actions. by exists c', p', a'.
    + by apply elem_of_unload_actions in Hx as (? & ? & ? & _ & _ & _ & ?).
    + by apply elem_of_fly_actions in Hx as (? & ? & ? & _ & _ & _ & _ & ?).
  - simpl in *. rewrite Forall_cons, Forall_singleton in Hpre.
    destruct Hpre as [_ Hpre].
    repeat apply Forall_cons_2; [| | constructor];
      apply true_literals_result_iff; try done; simpl.
    + split; [done |]. right. by left.
    + split; [by apply (true_literals_universe state) |]. left. split; [done |].
      rewrite list_elem_of_singleton. intros [= ->]. by apply Hne.
Qed.

Lemma unload_after_load_witness :
  unload "C2" "P2" "JFK"
  ∈ actions air_cargo_p3
      (result air_cargo_p3 (initial_state_TF air_cargo_p3) (load "C2" "P2" "JFK")).
Proof.
  apply unload_after_load.
  - decide_by_computation.
  - decide_by_computation.
  - decide_by_computation.
  - decide_by_computation.
Defined.

(** When the cargo has the name of the plane, loading removes the plane's
    own position and the unload is not possible. *)
Example unload_after_load_same_name :
  let problem := mkAirCargoProblem ["X"] ["X"] ["JFK"]
                   (mkFluentState [At "X" "JFK"] [In_ "X" "X"]) [] in
  load "X" "X" "JFK" ∈ actions problem (initial_state_TF problem)
  ∧ actions problem
      (result problem (initial_state_TF problem) (load "X" "X" "JFK")) = [].
Proof. split; [decide_by_computation | vm_compute; reflexivity]. Qed.

(** ** The three example problems *)

Example example_problems_well_formed :
  well_formed air_cargo_p1 ∧ well_formed air_cargo_p2 ∧ well_formed air_cargo_p3.
Proof. unfold well_formed. repeat split; decide_by_computation. Qed.
